(** * comprovantefinanceiro: receipt classification, name sanitising and batch renaming

    A shallow embedding of [src/comprovantefinanceiro.py].

    - Python [str] values are sequences of Unicode code points: [str := list N].
    - The five [re.search] patterns of [extrair_info_comprovante] are values of a
      small regular-expression syntax, run by a backtracking matcher with
      Python's priorities (greedy, lazy, alternation left to right, leftmost
      start position first).
    - The temporary directory is an association list from relative paths to
      nodes, listed in directory-scan order; [Path.rename] has the POSIX
      behaviour (an existing file is replaced).
    - [st.error] / [st.warning] calls are collected in a message log. *)

From Stdlib Require Import String Ascii.
From Stdlib Require Import List NArith ZArith Bool Lia Arith.
Import ListNotations.

Local Open Scope N_scope.
Local Open Scope list_scope.

(* ================================================================== *)
(** ** Python strings *)

Definition char := N.
Definition str := list char.

(** Decoder used only to write literals: the UTF-8 bytes of a Rocq string
    literal become the code points of the Python literal. *)
Fixpoint utf8 (s : string) (acc : N) (k : nat) : str :=
  match s with
  | EmptyString => []
  | String a s' =>
      let b := N_of_ascii a in
      match k with
      | O => if b <? 128 then b :: utf8 s' 0 0
             else if b <? 224 then utf8 s' (b - 192) 1
             else if b <? 240 then utf8 s' (b - 224) 2
             else utf8 s' (b - 240) 3
      | S O => (acc * 64 + (b - 128)) :: utf8 s' 0 0
      | S k' => utf8 s' (acc * 64 + (b - 128)) k'
      end
  end.

Definition py (s : string) : str := utf8 s 0 0.

Arguments py s%_string.

Definition NL : char := 10.

Fixpoint str_eqb (a b : str) : bool :=
  match a, b with
  | [], [] => true
  | x :: a', y :: b' => (x =? y) && str_eqb a' b'
  | _, _ => false
  end.

(** [str.isspace] for one character, which is also what [\s] matches in a
    [str] pattern and what [str.split()] and [str.strip()] treat as blank. *)
Definition isspace (c : char) : bool :=
  ((9 <=? c) && (c <=? 13)) || ((28 <=? c) && (c <=? 32))
  || (c =? 133) || (c =? 160) || (c =? 5760)
  || ((8192 <=? c) && (c <=? 8202))
  || (c =? 8232) || (c =? 8233) || (c =? 8239) || (c =? 8287) || (c =? 12288).

(** First code point of each block of ten decimal digits (Unicode category
    Nd); the last entry, the mathematical digits, spans fifty. *)
Definition decimal_blocks : list (N * N) :=
  [(48, 57); (1632, 1641); (1776, 1785); (1984, 1993); (2406, 2415);
   (2534, 2543); (2662, 2671); (2790, 2799); (2918, 2927); (3046, 3055);
   (3174, 3183); (3302, 3311); (3430, 3439); (3558, 3567); (3664, 3673);
   (3792, 3801); (3872, 3881); (4160, 4169); (4240, 4249); (6112, 6121);
   (6160, 6169); (6470, 6479); (6608, 6617); (6784, 6793); (6800, 6809);
   (6992, 7001); (7088, 7097); (7232, 7241); (7248, 7257); (42528, 42537);
   (43216, 43225); (43264, 43273); (43472, 43481); (43504, 43513);
   (43600, 43609); (44016, 44025); (65296, 65305); (66720, 66729);
   (68912, 68921); (69734, 69743); (69872, 69881); (69942, 69951);
   (70096, 70105); (70384, 70393); (70736, 70745); (70864, 70873);
   (71248, 71257); (71360, 71369); (71472, 71481); (71904, 71913);
   (72016, 72025); (72784, 72793); (73040, 73049); (73120, 73129);
   (92768, 92777); (92864, 92873); (93008, 93017); (120782, 120831);
   (123200, 123209); (123632, 123641); (125264, 125273); (130032, 130041)].

(** What [\d] matches in a [str] pattern. *)
Definition isdecimal (c : char) : bool :=
  existsb (fun b => (fst b <=? c) && (c <=? snd b)) decimal_blocks.

(** [.] without [re.DOTALL], and with it. *)
Definition dot (c : char) : bool := negb (c =? NL).
Definition dotall (_ : char) : bool := true.

Fixpoint startswith (s p : str) {struct p} : bool :=
  match p with
  | [] => true
  | x :: p' =>
      match s with
      | y :: s' => (x =? y) && startswith s' p'
      | [] => false
      end
  end.

(** [sub in s] *)
Fixpoint contains (s sub : str) : bool :=
  startswith s sub ||
  match s with
  | [] => false
  | _ :: s' => contains s' sub
  end.

Definition endswith (s p : str) : bool := startswith (rev s) (rev p).

(** [s.replace(a, b)] for single characters [a] and [b]. *)
Definition replace (a b : char) (s : str) : str :=
  map (fun c => if c =? a then b else c) s.

Fixpoint lstrip (s : str) : str :=
  match s with
  | c :: s' => if isspace c then lstrip s' else s
  | [] => []
  end.

Definition rstrip (s : str) : str := rev (lstrip (rev s)).
Definition strip (s : str) : str := rstrip (lstrip s).

(** [s.split()]: the maximal runs of non-blank characters, in order.
    [cur] holds the run being read, reversed. *)
Fixpoint split_from (cur : str) (s : str) : list str :=
  match s with
  | [] => match cur with [] => [] | _ => [rev cur] end
  | c :: s' =>
      if isspace c
      then match cur with
           | [] => split_from [] s'
           | _ => rev cur :: split_from [] s'
           end
      else split_from (c :: cur) s'
  end.

Definition split (s : str) : list str := split_from [] s.

(** [sep.join(ws)] *)
Fixpoint join (sep : str) (ws : list str) : str :=
  match ws with
  | [] => []
  | [w] => w
  | w :: ws' => w ++ sep ++ join sep ws'
  end.

(* ================================================================== *)
(** ** Regular expressions of [re], as far as the program uses them *)

Inductive regex : Type :=
| Lit (s : str)                        (* literal text                *)
| Rep (n : nat) (p : char -> bool)     (* [p{n}]                      *)
| Star (p : char -> bool)              (* [p*], greedy                *)
| LazyStar (p : char -> bool)          (* [p*?]                       *)
| LazyPlus (p : char -> bool)          (* [p+?]                       *)
| Eos                                  (* [$] without re.MULTILINE    *)
| Seq (r1 r2 : regex)
| Alt (r1 r2 : regex)                  (* [(?:r1|r2)]                 *)
| Group (r : regex).                   (* the capturing group, number 1 *)

Declare Scope regex_scope.
Delimit Scope regex_scope with regex.
Bind Scope regex_scope with regex.
Infix "·" := Seq (at level 60, right associativity) : regex_scope.

Section Matcher.
Context {R : Type}.

Fixpoint rep (n : nat) (p : char -> bool) (s : str) (k : str -> option R)
  : option R :=
  match n with
  | O => k s
  | S n' =>
      match s with
      | c :: s' => if p c then rep n' p s' k else None
      | [] => None
      end
  end.

(** Greedy: take as many as possible, give back one at a time. *)
Fixpoint star (p : char -> bool) (s : str) (k : str -> option R)
  : option R :=
  match s with
  | c :: s' =>
      if p c
      then match star p s' k with
           | Some r => Some r
           | None => k s
           end
      else k s
  | [] => k []
  end.

(** Lazy: try to stop first, take one more on failure. *)
Fixpoint lazy_star (p : char -> bool) (s : str) (k : str -> option R)
  : option R :=
  match k s with
  | Some r => Some r
  | None =>
      match s with
      | c :: s' => if p c then lazy_star p s' k else None
      | [] => None
      end
  end.

Definition lazy_plus (p : char -> bool) (s : str) (k : str -> option R)
  : option R :=
  match s with
  | c :: s' => if p c then lazy_star p s' k else None
  | [] => None
  end.

(** [run r s g k]: match [r] at the head of [s]; [g] is the text of group
    1 so far; [k] continues with the rest of the input. [None] makes the
    matcher backtrack. *)
Fixpoint run (r : regex) (s : str) (g : str) (k : str -> str -> option R)
  : option R :=
  match r with
  | Lit l => if startswith s l then k (skipn (length l) s) g else None
  | Rep n p => rep n p s (fun s' => k s' g)
  | Star p => star p s (fun s' => k s' g)
  | LazyStar p => lazy_star p s (fun s' => k s' g)
  | LazyPlus p => lazy_plus p s (fun s' => k s' g)
  | Eos =>
      match s with
      | [] => k s g
      | [c] => if c =? NL then k s g else None
      | _ => None
      end
  | Seq r1 r2 => run r1 s g (fun s' g' => run r2 s' g' k)
  | Alt r1 r2 =>
      match run r1 s g k with
      | Some x => Some x
      | None => run r2 s g k
      end
  | Group r1 =>
      run r1 s g
          (fun s' _ => k s' (firstn (length s - length s')%nat s))
  end.
End Matcher.

(** [re.search(r, s)]: the first start position with a match; the result is
    [m.group(1)] of the match object. *)
Fixpoint re_search (r : regex) (s : str) : option str :=
  match run r s [] (fun _ g => Some g) with
  | Some g => Some g
  | None =>
      match s with
      | [] => None
      | _ :: s' => re_search r s'
      end
  end.

(** [re.sub(r'[...]', '', s)] for a character class. *)
Definition re_sub_class (p : char -> bool) (s : str) : str :=
  filter (fun c => negb (p c)) s.

(* ================================================================== *)
(** ** extrair_info_comprovante *)

Inductive tipo := Boleto | TED | PIX.

Local Open Scope regex_scope.

(** [\d{2}/\d{2}/\d{4}] *)
Definition re_dmy : regex :=
  Rep 2 isdecimal · Lit (py "/") · Rep 2 isdecimal · Lit (py "/")
  · Rep 4 isdecimal.

(** [r'Data de débito:\s*(\d{2}/\d{2}/\d{4})'] *)
Definition re_data_debito : regex :=
  Lit (py "Data de débito:") · Star isspace · Group re_dmy.

(** [r'Nome do beneficiário:\s*(.+?)(?:\n|$)'] *)
Definition re_beneficiario : regex :=
  Lit (py "Nome do beneficiário:") · Star isspace · Group (LazyPlus dot)
  · Alt (Lit [NL]) Eos.

(** [r'Data/Hora:\s*(\d{2}/\d{2}/\d{4})'] *)
Definition re_data_hora : regex :=
  Lit (py "Data/Hora:") · Star isspace · Group re_dmy.

(** [r'Favorecido:\s*(.+?)(?:\n|$)'] *)
Definition re_favorecido : regex :=
  Lit (py "Favorecido:") · Star isspace · Group (LazyPlus dot)
  · Alt (Lit [NL]) Eos.

(** [r'Informações do Destinatário.*?Nome:\s*(.+?)(?:\n|CPF)'], re.DOTALL *)
Definition re_destinatario : regex :=
  Lit (py "Informações do Destinatário") · LazyStar dotall
  · Lit (py "Nome:") · Star isspace · Group (LazyPlus dotall)
  · Alt (Lit [NL]) (Lit (py "CPF")).

Local Close Scope regex_scope.

Definition SLASH : char := 47.
Definition HYPHEN : char := 45.

(** The three values the function returns: data, destinatario,
    tipo_comprovante; [None] is Python's [None]. *)
Definition info : Type := option str * option str * option tipo.

(** [match_data.group(1).replace('/', '-')] when the search matched. *)
Definition extrair_data (r : regex) (texto : str) : option str :=
  option_map (replace SLASH HYPHEN) (re_search r texto).

(** [match.group(1).strip()] when the search matched. *)
Definition extrair_nome (r : regex) (texto : str) : option str :=
  option_map strip (re_search r texto).

(** The body of the [with] block, from the text of the first page. *)
Definition extrair_info_texto (texto : str) : info :=
  if contains texto (py "Boleto") || contains texto (py "Data de débito:")
  then (extrair_data re_data_debito texto,
        extrair_nome re_beneficiario texto, Some Boleto)
  else if contains texto (py "TED") && contains texto (py "Transferência")
  then (extrair_data re_data_hora texto,
        extrair_nome re_favorecido texto, Some TED)
  else if contains texto (py "PIX")
  then (extrair_data re_data_hora texto,
        extrair_nome re_destinatario texto, Some PIX)
  else (None, None, None).

(* ================================================================== *)
(** ** limpar_nome_arquivo *)

(** The class of the [re.sub] pattern: less-than, greater-than, colon,
    double quote, slash, backslash, bar, question mark, asterisk. *)
Definition invalid_chars : list char := [60; 62; 58; 34; 47; 92; 124; 63; 42].

Definition invalido (c : char) : bool := existsb (N.eqb c) invalid_chars.

Definition SPACE : char := 32.

Definition limpar_nome_arquivo (nome : str) : str :=
  let nome_limpo := re_sub_class invalido nome in
  join [SPACE] (split nome_limpo).

(* ================================================================== *)
(** ** The temporary directory *)

(** What pdfplumber makes of a file's bytes: a document it cannot open, or
    the extracted text of each page. *)
Inductive pdf :=
| Corrompido
| Pdf (pages : list str).

Inductive no :=
| Arquivo (conteudo : pdf)
| Diretorio.

(** A path below [temp_path], as its components. *)
Definition caminho := list str.

Fixpoint caminho_eqb (p q : caminho) : bool :=
  match p, q with
  | [], [] => true
  | x :: p', y :: q' => str_eqb x y && caminho_eqb p' q'
  | _, _ => false
  end.

(** The entries of the directory tree, in the order a scan yields them. *)
Definition area := list (caminho * no).

Fixpoint ler (a : area) (p : caminho) : option no :=
  match a with
  | [] => None
  | (q, n) :: a' => if caminho_eqb q p then Some n else ler a' p
  end.

Definition remover (a : area) (p : caminho) : area :=
  filter (fun e => negb (caminho_eqb (fst e) p)) a.

Fixpoint gravar (a : area) (p : caminho) (n : no) : area :=
  match a with
  | [] => [(p, n)]
  | (q, m) :: a' =>
      if caminho_eqb q p then (q, n) :: a' else (q, m) :: gravar a' p n
  end.

(** [Path.name] *)
Definition name (p : caminho) : str := last p [].

(** [temp_path.rglob('*.pdf')]: every entry, at any depth, whose name ends
    in ".pdf". *)
Definition rglob_pdf (a : area) : list caminho :=
  map fst (filter (fun e => endswith (name (fst e)) (py ".pdf")) a).

Inductive excecao :=
| PdfError               (* pdfplumber cannot parse the file          *)
| IndexError             (* pdf.pages[0] of a document without pages  *)
| FileNotFoundError
| IsADirectoryError
| FileNameTooLong        (* OSError ENAMETOOLONG                      *)
| ValueError             (* embedded null byte                        *)
| UnicodeEncodeError     (* surrogates not allowed                    *)
| DirectorySource.       (* renaming a directory: not modelled        *)

(** Bytes of one code point in the file-system encoding (UTF-8 with
    surrogateescape: U+DC80..U+DCFF stand for one raw byte each). *)
Definition fs_bytes (c : char) : N :=
  if c <? 128 then 1
  else if c <? 2048 then 2
  else if (56448 <=? c) && (c <=? 56575) then 1
  else if c <? 65536 then 3
  else 4.

Definition fs_length (s : str) : N := fold_right (fun c n => fs_bytes c + n) 0 s.

Definition surrogate (c : char) : bool :=
  (55296 <=? c) && (c <=? 57343) && negb ((56448 <=? c) && (c <=? 56575)).

(** Any surrogate code point: what [str.encode('utf-8')], without an error
    handler, refuses. *)
Definition surrogate_qualquer (c : char) : bool :=
  (55296 <=? c) && (c <=? 57343).

Definition NAME_MAX : N := 255.

(** [src.rename(dst)] for a regular file [src]: [dst] is replaced when it
    is a file, created when it does not exist.  The target is first
    encoded for the file system, then searched for a NUL, and only then
    handed to the system call. *)
Definition rename (a : area) (src dst : caminho) : excecao + area :=
  if existsb (existsb surrogate) dst then inl UnicodeEncodeError
  else if existsb (existsb (N.eqb 0)) dst then inl ValueError
  else
    match ler a src with
    | None => inl FileNotFoundError
    | Some Diretorio => inl DirectorySource
    | Some (Arquivo c) =>
        if existsb (fun x => NAME_MAX <? fs_length x) dst
        then inl FileNameTooLong
        else
          match ler a dst with
          | Some Diretorio => inl IsADirectoryError
          | _ => inr (gravar (remover a src) dst (Arquivo c))
          end
    end.

(** [pdfplumber.open(pdf_path)], [pdf.pages[0]], [extract_text()]. *)
Definition primeira_pagina (a : area) (pdf_path : caminho) : excecao + str :=
  match ler a pdf_path with
  | None => inl FileNotFoundError
  | Some Diretorio => inl IsADirectoryError
  | Some (Arquivo Corrompido) => inl PdfError
  | Some (Arquivo (Pdf [])) => inl IndexError
  | Some (Arquivo (Pdf (texto :: _))) => inr texto
  end.

(** Calls to the user interface that carry a message. *)
Inductive mensagem :=
| StError (e : excecao)     (* st.error(f"Erro ao processar PDF: ...")        *)
| StWarning.                (* st.warning("Nenhum arquivo PDF encontrado...") *)

(** The function with its [try]/[except]: the three values it returns and
    the messages it shows. *)
Definition extrair_info_comprovante (a : area) (pdf_path : caminho)
  : info * list mensagem :=
  match primeira_pagina a pdf_path with
  | inr texto => (extrair_info_texto texto, [])
  | inl e => ((None, None, None), [StError e])
  end.

(* ================================================================== *)
(** ** processar_zip *)

Inductive status :=
| Sucesso                         (* '✅ Sucesso'                       *)
| ErroAoRenomear (e : excecao)    (* f'❌ Erro ao renomear: {str(e)}'   *)
| NaoEncontradas.                 (* '⚠️ Informações não encontradas'   *)

Record registro := {
  original : str;
  novo_nome : str;
  estado_final : status;
  tipo_texto : str;
  data : str;
  destinatario : str
}.

(** Truth value of a [str] or [None]. *)
Definition truthy (o : option str) : bool :=
  match o with
  | Some (_ :: _) => true
  | _ => false
  end.

Definition valor (o : option str) : str :=
  match o with
  | Some s => s
  | None => []
  end.

(** [o or d] *)
Definition py_or (o : option str) (d : str) : str :=
  if truthy o then valor o else d.

(** [tipo or 'Desconhecido'] *)
Definition tipo_or_desconhecido (t : option tipo) : str :=
  match t with
  | Some Boleto => py "Boleto"
  | Some TED => py "TED"
  | Some PIX => py "PIX"
  | None => py "Desconhecido"
  end.

(** [f"{data} - {destinatario_limpo}.pdf"] *)
Definition formatar_nome (d destinatario_limpo : str) : str :=
  d ++ py " - " ++ destinatario_limpo ++ py ".pdf".

(** What the loop of [processar_zip] reads and writes. *)
Record estado := {
  temp : area;
  arquivos_renomeados : list caminho;
  resultados : list registro;
  mensagens : list mensagem
}.

(** One iteration of [for idx, pdf_file in enumerate(pdf_files)]. The new
    name holds no slash (proved below), so
    [temp_path / novo_nome] is the entry of that name directly under
    [temp_path]. *)
Definition passo (e : estado) (pdf_file : caminho) : estado :=
  let '((dt, dest, tp), msgs) := extrair_info_comprovante (temp e) pdf_file in
  if truthy dt && truthy dest then
    let destinatario_limpo := limpar_nome_arquivo (valor dest) in
    let novo := formatar_nome (valor dt) destinatario_limpo in
    let novo_caminho : caminho := [novo] in
    match rename (temp e) pdf_file novo_caminho with
    | inr a' =>
        {| temp := a';
           arquivos_renomeados := arquivos_renomeados e ++ [novo_caminho];
           resultados := resultados e ++
             [{| original := name pdf_file;
                 novo_nome := novo;
                 estado_final := Sucesso;
                 tipo_texto := tipo_or_desconhecido tp;
                 data := valor dt;
                 destinatario := destinatario_limpo |}];
           mensagens := mensagens e ++ msgs |}
    | inl ex =>
        {| temp := temp e;
           arquivos_renomeados := arquivos_renomeados e;
           resultados := resultados e ++
             [{| original := name pdf_file;
                 novo_nome := py "-";
                 estado_final := ErroAoRenomear ex;
                 tipo_texto := tipo_or_desconhecido tp;
                 data := valor dt;
                 destinatario := destinatario_limpo |}];
           mensagens := mensagens e ++ msgs |}
    end
  else
    {| temp := temp e;
       arquivos_renomeados := arquivos_renomeados e;
       resultados := resultados e ++
         [{| original := name pdf_file;
             novo_nome := py "-";
             estado_final := NaoEncontradas;
             tipo_texto := tipo_or_desconhecido tp;
             data := py_or dt (py "N/A");
             destinatario := py_or dest (py "N/A") |}];
       mensagens := mensagens e ++ msgs |}.

Definition laco (e : estado) (pdf_files : list caminho) : estado :=
  fold_left passo pdf_files e.

(** The output archive: entry names with what each entry holds, in the
    order written. A second entry of a name already present is added, not
    merged ([zipfile] only warns of the duplicate name). *)
Definition zip := list (str * no).

(** [zip_out.write(arquivo, arquivo.name)] for each renamed path, in
    order; the first call that raises ends the loop.  The file is looked
    up first; a directory is written as an entry whose name ends in "/";
    the entry's header takes the name in ASCII or else UTF-8, which fails
    on a surrogate (also on those that [rename] let through as raw
    bytes). *)
Fixpoint empacotar (a : area) (l : list caminho) : excecao + zip :=
  match l with
  | [] => inr []
  | arquivo :: l' =>
      match ler a arquivo with
      | None => inl FileNotFoundError
      | Some n =>
          let arcname := match n with
                         | Arquivo _ => name arquivo
                         | Diretorio => name arquivo ++ py "/"
                         end in
          if existsb surrogate_qualquer arcname then inl UnicodeEncodeError
          else
            match empacotar a l' with
            | inl e => inl e
            | inr z => inr ((arcname, n) :: z)
            end
      end
  end.

Inductive retorno :=
| Levanta (e : excecao)
| Retorna (zip_output : option zip) (res : list registro).

(** [processar_zip], from the directory tree that [zip_ref.extractall]
    left in [temp_path]. *)
Definition processar_zip (temp_path : area) : retorno * list mensagem :=
  let pdf_files := rglob_pdf temp_path in
  match pdf_files with
  | [] => (Retorna None [], [StWarning])
  | _ :: _ =>
      let e := laco {| temp := temp_path; arquivos_renomeados := [];
                       resultados := []; mensagens := [] |} pdf_files in
      match empacotar (temp e) (arquivos_renomeados e) with
      | inr z => (Retorna (Some z) (resultados e), mensagens e)
      | inl ex => (Levanta ex, mensagens e)
      end
  end.

(* ================================================================== *)
(** ** Auxiliary definitions used to state the properties *)

Definition data_de (i : info) : option str := fst (fst i).
Definition destinatario_de (i : info) : option str := snd (fst i).
Definition tipo_de (i : info) : option tipo := snd i.

(** [sub] occurs in [s]. *)
Definition ocorre (sub s : str) : Prop := exists a b, s = a ++ sub ++ b.

(** A word: non-empty, without blanks. *)
Definition palavra (w : str) : Prop :=
  w <> [] /\ Forall (fun c => isspace c = false) w.

(** Whitespace normalisation said directly, to compare with
    [' '.join(s.split())]: inside the text every run of blanks becomes one
    space (emitted at the last blank of the run); a run at the end
    disappears.  Leading blanks are dropped by [lstrip] beforehand. *)
Fixpoint colapsar (s : str) : str :=
  match s with
  | [] => []
  | c :: s' =>
      if isspace c
      then match s' with
           | [] => []
           | d :: _ => if isspace d then colapsar s' else SPACE :: colapsar s'
           end
      else c :: colapsar s'
  end.

Definition normalizar_espacos (s : str) : str := colapsar (lstrip s).

(** Every blank of [r] is one space that stands between two non-blank
    characters: no blank at either end, no two blanks in a row. *)
Definition espacos_simples (r : str) : Prop :=
  forall a c b, r = a ++ c :: b -> isspace c = true ->
    c = SPACE
    /\ (exists a' x, a = a' ++ [x] /\ isspace x = false)
    /\ (exists y b', b = y :: b' /\ isspace y = false).

(** What [extrair_info_comprovante] returns for a file with content [c]. *)
Definition info_de (c : pdf) : info :=
  match c with
  | Pdf (texto :: _) => extrair_info_texto texto
  | _ => (None, None, None)
  end.

(** The name [processar_zip] gives to a file with content [c], when it
    renames it. *)
Definition destino (c : pdf) : option str :=
  let i := info_de c in
  if truthy (data_de i) && truthy (destinatario_de i)
  then Some (formatar_nome (valor (data_de i))
                           (limpar_nome_arquivo (valor (destinatario_de i))))
  else None.

Definition inicial (temp_path : area) : estado :=
  {| temp := temp_path; arquivos_renomeados := [];
     resultados := []; mensagens := [] |}.

Definition sucesso (r : registro) : bool :=
  match estado_final r with
  | Sucesso => true
  | _ => false
  end.

(** The record of a file that could not be read. *)
Definition registro_ilegivel (pdf_file : caminho) : registro :=
  {| original := name pdf_file;
     novo_nome := py "-";
     estado_final := NaoEncontradas;
     tipo_texto := py "Desconhecido";
     data := py "N/A";
     destinatario := py "N/A" |}.

(** A PIX receipt: the payee's name stands two lines below the
    "Informações do Destinatário" heading and is followed by the CPF line. *)
Definition texto_pix : str :=
  py "Comprovante de pagamento PIX" ++ [NL] ++
  py "Data/Hora: 19/12/2025 14:32" ++ [NL] ++
  py "Valor: R$ 150,00" ++ [NL] ++
  py "Informações do Destinatário" ++ [NL] ++
  py "Instituição: BANCO EXEMPLO S.A." ++ [NL] ++
  py "Nome: Francivaldo de Sousa Figueira" ++ [NL] ++
  py "CPF: ***.123.456-**" ++ [NL].

(** Two PIX receipts for the same payee on the same day. *)
Definition texto_jane (valor_pago : str) : str :=
  py "PIX" ++ [NL] ++
  py "Data/Hora: 19/12/2025 09:10" ++ [NL] ++
  py "Valor: " ++ valor_pago ++ [NL] ++
  py "Informações do Destinatário" ++ [NL] ++
  py "Nome: Jane Doe" ++ [NL] ++
  py "CPF: ***.000.000-**" ++ [NL].

Definition jane_1 : pdf := Pdf [texto_jane (py "10,00")].
Definition jane_2 : pdf := Pdf [texto_jane (py "20,00")].

Definition area_colisao : area :=
  [([py "a.pdf"], Arquivo jane_1); ([py "b.pdf"], Arquivo jane_2)].

(** A PIX receipt whose payee line holds only characters that
    [limpar_nome_arquivo] removes. *)
Definition texto_sem_nome : str :=
  py "PIX" ++ [NL] ++
  py "Data/Hora: 19/12/2025 09:10" ++ [NL] ++
  py "Informações do Destinatário" ++ [NL] ++
  py "Nome: ??" ++ [NL] ++
  py "CPF: ***.000.000-**" ++ [NL].

(** The archive held a folder whose name is the name the receipt would
    get. *)
Definition area_pasta : area :=
  [([py "19-12-2025 - .pdf"], Diretorio);
   ([py "recibos"], Diretorio);
   ([py "recibos"; py "x.pdf"], Arquivo (Pdf [texto_sem_nome]))].

(** The state after some iterations that began in [e]: the directory is
    now [a], and paths, records and messages were appended. *)
Definition acrescenta (e : estado) (a : area) (novos : list caminho)
  (rs : list registro) (ms : list mensagem) : estado :=
  {| temp := a;
     arquivos_renomeados := arquivos_renomeados e ++ novos;
     resultados := resultados e ++ rs;
     mensagens := mensagens e ++ ms |}.

(** Every path in [l] holds, in [a], a regular file whose own content
    gives it the name it is stored under. *)
Definition renomeados_ok (a : area) (l : list caminho) : Prop :=
  Forall (fun q => exists nm c,
            q = [nm] /\ ler a q = Some (Arquivo c) /\ destino c = Some nm) l.

(** The shape DD-MM-YYYY, each D, M, Y a decimal digit. *)
Definition formato_data (d : str) : bool :=
  match d with
  | [d1; d2; h1; m1; m2; h2; y1; y2; y3; y4] =>
      isdecimal d1 && isdecimal d2 && (h1 =? HYPHEN)
      && isdecimal m1 && isdecimal m2 && (h2 =? HYPHEN)
      && isdecimal y1 && isdecimal y2 && isdecimal y3 && isdecimal y4
  | _ => false
  end.

(** A batch with a receipt, a file that is no PDF, a page of unrelated
    text and a second receipt. *)
Definition area_mista : area :=
  [([py "a.pdf"], Arquivo jane_1);
   ([py "c.pdf"], Arquivo Corrompido);
   ([py "docs"], Diretorio);
   ([py "docs"; py "notas.pdf"], Arquivo (Pdf [py "Lista de compras"]));
   ([py "b.pdf"], Arquivo (Pdf [texto_pix]))].

(** The second receipt of the collision is already stored under the name
    both receipts get. *)
Definition area_colisao_alvo : area :=
  [([py "a.pdf"], Arquivo jane_1);
   ([py "19-12-2025 - Jane Doe.pdf"], Arquivo jane_2)].

(** [main], once [processar_zip] has returned: the test
    [if zip_output and resultados] that guards the statistics, the table
    and the download button.  The bytes of a written archive are never
    empty (an archive without entries still has its end record), so the
    test asks for an archive and at least one record. *)
Definition mostra_resultados (r : retorno) : bool :=
  match r with
  | Retorna (Some _) (_ :: _) => true
  | _ => false
  end.

(** [main]: the metrics "Total de Arquivos", "Processados com Sucesso"
    and "Erros/Avisos". *)
Definition metricas (res : list registro) : Z * Z * Z :=
  let total := Z.of_nat (List.length res) in
  let n_sucesso := Z.of_nat (List.length (filter sucesso res)) in
  let erro := (total - n_sucesso)%Z in
  (total, n_sucesso, erro).

(** What holds of every record [processar_zip] builds. *)
Definition registro_coerente (r : registro) : Prop :=
  In (tipo_texto r) [py "Boleto"; py "TED"; py "PIX"; py "Desconhecido"]
  /\ match estado_final r with
     | Sucesso =>
         novo_nome r = formatar_nome (data r) (destinatario r)
         /\ formato_data (data r) = true
         /\ limpar_nome_arquivo (destinatario r) = destinatario r
         /\ tipo_texto r <> py "Desconhecido"
     | ErroAoRenomear _ =>
         novo_nome r = py "-"
         /\ formato_data (data r) = true
         /\ limpar_nome_arquivo (destinatario r) = destinatario r
         /\ tipo_texto r <> py "Desconhecido"
     | NaoEncontradas =>
         novo_nome r = py "-" /\ data r <> [] /\ destinatario r <> []
     end.

(** A name that both the file system and the archive writer take: no
    NUL, no surrogate, at most [NAME_MAX] bytes. *)
Definition nome_aceito (nm : str) : bool :=
  negb (existsb (N.eqb 0) nm) && negb (existsb surrogate_qualquer nm)
  && negb (NAME_MAX <? fs_length nm).

(** A directory as the tool leaves its output: nothing but regular files
    directly under the root, no name twice, each file stored under the
    name [processar_zip] gives to its content. *)
Definition ja_renomeada (a : area) : Prop :=
  NoDup (map fst a)
  /\ Forall (fun e => exists nm c,
               e = ([nm], Arquivo c) /\ destino c = Some nm
               /\ nome_aceito nm = true) a.

(** A receipt stored under the name it would get, and one more. *)
Definition area_renomeada : area :=
  [([py "19-12-2025 - Jane Doe.pdf"], Arquivo jane_2);
   ([py "19-12-2025 - Francivaldo de Sousa Figueira.pdf"],
    Arquivo (Pdf [texto_pix]))].

(** A receipt whose payee line is longer than a file name may be. *)
Definition texto_nome_longo : str :=
  py "PIX" ++ [NL] ++
  py "Data/Hora: 19/12/2025 09:10" ++ [NL] ++
  py "Informações do Destinatário" ++ [NL] ++
  py "Nome: " ++ repeat 65 300 ++ [NL] ++
  py "CPF: ***.000.000-**" ++ [NL].

Definition area_nome_longo : area :=
  [([py "longo.pdf"], Arquivo (Pdf [texto_nome_longo]))].

(** No occurrence of [l] in [pre ++ s] starts inside [pre]. *)
Fixpoint comeca_depois (l pre s : str) : bool :=
  match pre with
  | [] => true
  | _ :: pre' => negb (startswith (pre ++ s) l) && comeca_depois l pre' s
  end.

(** The continuation [k] fails at every position inside [a], read in
    front of [b]. *)
Fixpoint falha_dentro {R : Type} (k : str -> option R) (a b : str) : Prop :=
  match a with
  | [] => True
  | _ :: a' => k (a ++ b) = None /\ falha_dentro k a' b
  end.

(** The final continuation of [re_search]: the match is found, its group
    is the result. *)
Definition achou : str -> str -> option str := fun _ g => Some g.

(** DD/MM/YYYY as it stands in the text, and as it is returned. *)
Definition dmy_barras (d1 d2 m1 m2 y1 y2 y3 y4 : char) : str :=
  [d1; d2; SLASH; m1; m2; SLASH; y1; y2; y3; y4].
Definition dmy_hifens (d1 d2 m1 m2 y1 y2 y3 y4 : char) : str :=
  [d1; d2; HYPHEN; m1; m2; HYPHEN; y1; y2; y3; y4].

(** A Boleto receipt as in the program's help text. *)
Definition texto_boleto : str :=
  py "Comprovante de pagamento de Boleto" ++ [NL] ++
  py "Data de débito: 22/12/2025" ++ [NL] ++
  py "Nome do beneficiário: A S DA CONCEICAO COMERCIO & SERVICOS LTDA  "
  ++ [NL] ++ py "Valor: R$ 10,00" ++ [NL].

(** Some file was renamed to a name that the archive writer cannot
    encode. *)
Definition nome_nao_codificavel (res : list registro) : bool :=
  existsb (fun r => sucesso r && existsb surrogate_qualquer (novo_nome r)) res.



(** A Boleto whose payee label is followed by a blank and the end of the
    line: the payee extracted is the empty string. *)
Definition texto_beneficiario_vazio : str :=
  py "Boleto" ++ [NL] ++
  py "Data de débito: 22/12/2025" ++ [NL] ++
  py "Nome do beneficiário: " ++ [NL].

Definition area_beneficiario_vazio : area :=
  [([py "a.pdf"], Arquivo jane_1);
   ([py "v.pdf"], Arquivo (Pdf [texto_beneficiario_vazio]));
   ([py "b.pdf"], Arquivo (Pdf [texto_pix]))].

(* ================================================================== *)
(** * Properties *)

(** ** Strings *)

Lemma str_eqb_eq (a b : str) : str_eqb a b = true <-> a = b.
Proof.
  revert b; induction a as [|x a IH]; intros [|y b]; simpl;
    try (split; [discriminate | congruence]); try tauto.
  rewrite andb_true_iff, N.eqb_eq, IH. split.
  - intros [-> ->]; reflexivity.
  - intros [= -> ->]; auto.
Qed.

Lemma caminho_eqb_eq (p q : caminho) : caminho_eqb p q = true <-> p = q.
Proof.
  revert q; induction p as [|x p IH]; intros [|y q]; simpl;
    try (split; [discriminate | congruence]); try tauto.
  rewrite andb_true_iff, str_eqb_eq, IH. split.
  - intros [-> ->]; reflexivity.
  - intros [= -> ->]; auto.
Qed.

Lemma caminho_eqb_refl (p : caminho) : caminho_eqb p p = true.
Proof. apply caminho_eqb_eq; reflexivity. Qed.

Lemma caminho_eqb_neq (p q : caminho) : p <> q -> caminho_eqb p q = false.
Proof.
  intros H; destruct (caminho_eqb p q) eqn:E; auto.
  apply caminho_eqb_eq in E; contradiction.
Qed.

Lemma startswith_iff (s p : str) :
  startswith s p = true <-> exists b, s = p ++ b.
Proof.
  revert s; induction p as [|x p IH]; intros s; simpl.
  - split; [intros _; exists s; reflexivity | reflexivity].
  - destruct s as [|y s].
    + split; [discriminate | intros [b Hb]; discriminate].
    + rewrite andb_true_iff, N.eqb_eq, IH. split.
      * intros [-> [b ->]]; exists b; reflexivity.
      * intros [b [= -> ->]]; eauto.
Qed.

Lemma contains_iff (s sub : str) : contains s sub = true <-> ocorre sub s.
Proof.
  unfold ocorre; induction s as [|c s IH].
  - simpl; rewrite orb_false_r, startswith_iff. split.
    + intros [b Hb]; exists [], b; exact Hb.
    + intros [[|x a] [b Hb]]; [exists b; exact Hb | discriminate].
  - change (contains (c :: s) sub)
      with (startswith (c :: s) sub || contains s sub).
    rewrite orb_true_iff, startswith_iff, IH. split.
    + intros [[b Hb] | [a [b Hb]]].
      * exists [], b; exact Hb.
      * exists (c :: a), b; simpl; rewrite Hb; reflexivity.
    + intros [[|x a] [b Hb]].
      * left; exists b; exact Hb.
      * right; injection Hb as -> ->; eauto.
Qed.

(** ** extrair_info_comprovante *)

Lemma extrair_info_texto_boleto (texto : str) :
  contains texto (py "Boleto") || contains texto (py "Data de débito:") = true ->
  extrair_info_texto texto =
    (extrair_data re_data_debito texto, extrair_nome re_beneficiario texto,
     Some Boleto).
Proof. intros H; unfold extrair_info_texto; rewrite H; reflexivity. Qed.

(** C2. A page text in which "Boleto" or "Data de débito:" occurs is
    classified as Boleto, and so neither as PIX nor as TED, whatever else
    the text holds: the Boleto test is the first of the cascade. *)
Theorem boleto_tem_prioridade (texto : str) :
  ocorre (py "Boleto") texto \/ ocorre (py "Data de débito:") texto ->
  tipo_de (extrair_info_texto texto) = Some Boleto
  /\ tipo_de (extrair_info_texto texto) <> Some PIX
  /\ tipo_de (extrair_info_texto texto) <> Some TED.
Proof.
  intros H.
  assert (E : tipo_de (extrair_info_texto texto) = Some Boleto).
  { rewrite extrair_info_texto_boleto; [reflexivity|].
    apply orb_true_iff; rewrite !contains_iff; exact H. }
  rewrite E; repeat split; discriminate.
Qed.

Lemma boleto_tem_prioridade_witness :
  let texto := py "PIX - TED Transferência - Pagamento de Boleto" in
  tipo_de (extrair_info_texto texto) = Some Boleto
  /\ tipo_de (extrair_info_texto texto) <> Some PIX
  /\ tipo_de (extrair_info_texto texto) <> Some TED.
Proof.
  apply boleto_tem_prioridade.
  left; exists (py "PIX - TED Transferência - Pagamento de "), [].
  reflexivity.
Defined.

(** C9. Whenever the extractor returns a date or a payee for a page text,
    it also returns a document type: both fields are only assigned inside
    a branch that has set the type. *)
Theorem campo_presente_tem_tipo (texto : str) :
  data_de (extrair_info_texto texto) <> None
  \/ destinatario_de (extrair_info_texto texto) <> None ->
  exists t, tipo_de (extrair_info_texto texto) = Some t.
Proof.
  unfold extrair_info_texto.
  repeat match goal with
         | |- context [if ?b then _ else _] => destruct b
         end; cbn [data_de destinatario_de tipo_de fst snd]; eauto.
  intros [H | H]; congruence.
Qed.

Lemma campo_presente_tem_tipo_witness :
  exists t, tipo_de (extrair_info_texto texto_pix) = Some t.
Proof.
  apply campo_presente_tem_tipo.
  left; vm_compute; discriminate.
Defined.

(** C6. On a PIX receipt that reads "Data/Hora: 19/12/2025 14:32" and, some
    lines after the heading "Informações do Destinatário", "Nome:
    Francivaldo de Sousa Figueira" followed by the "CPF: ..." line, and
    that holds no Boleto or TED marker, the extractor returns the date
    19-12-2025 (the time is dropped), the payee Francivaldo de Sousa
    Figueira and the type PIX. *)
Theorem pix_francivaldo :
  contains texto_pix (py "Boleto") = false
  /\ contains texto_pix (py "Data de débito:") = false
  /\ contains texto_pix (py "TED") = false
  /\ contains texto_pix (py "PIX") = true
  /\ ocorre (py "Informações do Destinatário" ++ [NL]
             ++ py "Instituição: BANCO EXEMPLO S.A." ++ [NL]
             ++ py "Nome: Francivaldo de Sousa Figueira" ++ [NL]
             ++ py "CPF: ") texto_pix
  /\ extrair_info_texto texto_pix =
       (Some (py "19-12-2025"), Some (py "Francivaldo de Sousa Figueira"),
        Some PIX).
Proof.
  repeat split; try (vm_compute; reflexivity).
  exists (py "Comprovante de pagamento PIX" ++ [NL]
          ++ py "Data/Hora: 19/12/2025 14:32" ++ [NL]
          ++ py "Valor: R$ 150,00" ++ [NL]),
    (py "***.123.456-**" ++ [NL]).
  vm_compute; reflexivity.
Qed.

(** ** limpar_nome_arquivo *)

Lemma isspace_SPACE : isspace SPACE = true.
Proof. reflexivity. Qed.

Lemma invalido_SPACE : invalido SPACE = false.
Proof. reflexivity. Qed.

Lemma join_cons2 (sep w w2 : str) (ws : list str) :
  join sep (w :: w2 :: ws) = w ++ sep ++ join sep (w2 :: ws).
Proof. reflexivity. Qed.

Lemma split_from_cons_blank (cur : str) (c : char) (s : str) :
  isspace c = true -> cur <> [] ->
  split_from cur (c :: s) = rev cur :: split_from [] s.
Proof.
  intros Hc Hcur; simpl; rewrite Hc.
  destruct cur; [contradiction | reflexivity].
Qed.

Lemma split_from_nil_cur (cur : str) :
  cur <> [] -> split_from cur [] = [rev cur].
Proof. intros H; destruct cur; [contradiction | reflexivity]. Qed.

Lemma split_from_not_nil (cur s : str) : cur <> [] -> split_from cur s <> [].
Proof.
  revert cur; induction s as [|c s IH]; intros cur Hcur.
  - rewrite split_from_nil_cur by assumption; discriminate.
  - destruct (isspace c) eqn:Hc.
    + rewrite split_from_cons_blank by assumption; discriminate.
    + simpl; rewrite Hc; apply IH; discriminate.
Qed.

Lemma split_from_word (w cur rest : str) :
  Forall (fun c => isspace c = false) w ->
  split_from cur (w ++ rest) = split_from (rev w ++ cur) rest.
Proof.
  intros Hw; revert cur; induction Hw as [|c w Hc _ IH]; intros cur.
  - reflexivity.
  - simpl; rewrite Hc, IH, <- app_assoc; reflexivity.
Qed.

Lemma split_from_palavras (cur s : str) :
  Forall (fun c => isspace c = false) cur ->
  Forall palavra (split_from cur s).
Proof.
  revert cur; induction s as [|c s IH]; intros cur Hcur.
  - destruct cur as [|x cur]; simpl; constructor; [|constructor].
    split.
    + intros E; apply (f_equal (@List.length _)) in E.
      rewrite length_app in E; simpl in E; lia.
    + apply Forall_rev with (l := x :: cur); exact Hcur.
  - simpl; destruct (isspace c) eqn:Hc.
    + destruct cur as [|x cur].
      * apply IH; constructor.
      * constructor; [|apply IH; constructor].
        split.
        -- intros E; apply (f_equal (@List.length _)) in E.
           simpl in E; rewrite length_app in E; simpl in E; lia.
        -- apply Forall_rev with (l := x :: cur); exact Hcur.
    + apply IH; constructor; assumption.
Qed.

Lemma split_palavras (s : str) : Forall palavra (split s).
Proof. apply split_from_palavras; constructor. Qed.

(** Splitting what was joined with single spaces gives the words back. *)
Lemma split_join (ws : list str) :
  Forall palavra ws -> split (join [SPACE] ws) = ws.
Proof.
  unfold split; induction 1 as [|w ws [Hne Hw] Hws IH].
  - reflexivity.
  - assert (Hrev : rev w ++ [] <> []).
    { rewrite app_nil_r; intros E; apply Hne.
      rewrite <- (rev_involutive w), E; reflexivity. }
    destruct ws as [|w2 ws].
    + simpl join; rewrite <- (app_nil_r w) at 1.
      rewrite split_from_word by assumption.
      rewrite split_from_nil_cur by assumption.
      rewrite app_nil_r, rev_involutive; reflexivity.
    + rewrite join_cons2, split_from_word by assumption.
      change ([SPACE] ++ join [SPACE] (w2 :: ws))
        with (SPACE :: join [SPACE] (w2 :: ws)).
      rewrite split_from_cons_blank by (assumption || reflexivity).
      rewrite IH, app_nil_r, rev_involutive; reflexivity.
Qed.

Lemma colapsar_blank (c : char) (s : str) :
  isspace c = true ->
  colapsar (c :: s) =
    match lstrip s with
    | [] => []
    | _ :: _ => SPACE :: colapsar (lstrip s)
    end.
Proof.
  revert c; induction s as [|d s IH]; intros c Hc.
  - simpl; rewrite Hc; reflexivity.
  - change (colapsar (c :: d :: s))
      with (if isspace c
            then if isspace d then colapsar (d :: s)
                 else SPACE :: colapsar (d :: s)
            else c :: colapsar (d :: s)).
    rewrite Hc; simpl lstrip; destruct (isspace d) eqn:Hd.
    + apply IH; assumption.
    + reflexivity.
Qed.

Lemma colapsar_nonblank (c : char) (s : str) :
  isspace c = false -> colapsar (c :: s) = c :: colapsar s.
Proof. intros Hc; simpl; rewrite Hc; reflexivity. Qed.

(** [' '.join(s.split())] against the direct definition. *)
Lemma join_split_from (s : str) :
  (forall cur, cur <> [] ->
     join [SPACE] (split_from cur s) = rev cur ++ colapsar s)
  /\ join [SPACE] (split_from [] s) = colapsar (lstrip s)
  /\ (split_from [] s = [] <-> lstrip s = []).
Proof.
  induction s as [|c s (IHa & IHb & IHc)].
  - repeat split; try reflexivity.
    intros cur Hcur; rewrite split_from_nil_cur by assumption.
    simpl; rewrite app_nil_r; reflexivity.
  - destruct (isspace c) eqn:Hc.
    + repeat split.
      * intros cur Hcur.
        rewrite split_from_cons_blank, colapsar_blank by assumption.
        destruct (split_from [] s) as [|w ws] eqn:Es.
        -- destruct IHc as [IHc _]; rewrite (IHc eq_refl).
           simpl; rewrite app_nil_r; reflexivity.
        -- destruct (lstrip s) as [|x t] eqn:El.
           ++ destruct IHc as [_ IHc]; discriminate (IHc eq_refl).
           ++ rewrite join_cons2, IHb; reflexivity.
      * simpl; rewrite Hc; exact IHb.
      * simpl; rewrite Hc; apply IHc.
      * simpl; rewrite Hc; apply IHc.
    + repeat split.
      * intros cur Hcur; simpl split_from; rewrite Hc.
        rewrite IHa by discriminate.
        rewrite colapsar_nonblank by assumption.
        simpl; rewrite <- app_assoc; reflexivity.
      * simpl split_from; simpl lstrip; rewrite Hc.
        rewrite IHa by discriminate.
        rewrite colapsar_nonblank by assumption; reflexivity.
      * simpl split_from; rewrite Hc; intros E.
        exfalso; revert E; apply split_from_not_nil; discriminate.
      * simpl; rewrite Hc; discriminate.
Qed.

Lemma limpar_nome_arquivo_normaliza (nome : str) :
  limpar_nome_arquivo nome = normalizar_espacos (re_sub_class invalido nome).
Proof. apply (join_split_from (re_sub_class invalido nome)). Qed.

Lemma re_sub_class_id (p : char -> bool) (s : str) :
  (forall c, In c s -> p c = false) -> re_sub_class p s = s.
Proof.
  unfold re_sub_class; induction s as [|c s IH]; intros H; simpl.
  - reflexivity.
  - rewrite (H c) by (left; reflexivity); simpl.
    rewrite IH; [reflexivity | intros; apply H; right; assumption].
Qed.

Lemma In_re_sub_class (p : char -> bool) (s : str) (c : char) :
  In c (re_sub_class p s) <-> In c s /\ p c = false.
Proof.
  unfold re_sub_class; rewrite filter_In, negb_true_iff; tauto.
Qed.

Lemma In_lstrip (s : str) (c : char) : In c (lstrip s) -> In c s.
Proof.
  induction s as [|d s IH]; simpl; [tauto|].
  destruct (isspace d); simpl; tauto.
Qed.

Lemma colapsar_cons2 (c d : char) (s : str) :
  colapsar (c :: d :: s) =
    if isspace c
    then if isspace d then colapsar (d :: s) else SPACE :: colapsar (d :: s)
    else c :: colapsar (d :: s).
Proof. reflexivity. Qed.

Lemma In_colapsar (s : str) (c : char) :
  In c (colapsar s) -> c = SPACE \/ In c s.
Proof.
  induction s as [|d s IH]; [simpl; tauto|].
  destruct s as [|e s].
  - simpl; destruct (isspace d); simpl; tauto.
  - rewrite colapsar_cons2.
    destruct (isspace d), (isspace e); intros H;
      try (destruct H as [H | H]; [subst; simpl; auto; fail|]);
      destruct (IH H) as [E | E]; auto; right; right; exact E.
Qed.

Lemma In_limpar_nome_arquivo (nome : str) (c : char) :
  In c (limpar_nome_arquivo nome) ->
  c = SPACE \/ (In c nome /\ invalido c = false).
Proof.
  rewrite limpar_nome_arquivo_normaliza; unfold normalizar_espacos.
  intros H; apply In_colapsar in H; destruct H as [H | H]; [auto|].
  right; apply In_re_sub_class, In_lstrip; exact H.
Qed.

Lemma limpar_nome_arquivo_valido (nome : str) (c : char) :
  In c (limpar_nome_arquivo nome) -> invalido c = false.
Proof.
  intros H; apply In_limpar_nome_arquivo in H.
  destruct H as [-> | [_ H]]; [reflexivity | exact H].
Qed.

Lemma join_head (w : str) (ws : list str) :
  palavra w ->
  exists y r, join [SPACE] (w :: ws) = y :: r /\ isspace y = false.
Proof.
  intros [Hne Hw]; destruct w as [|y w]; [contradiction|].
  inversion Hw; subst.
  destruct ws; simpl; eauto.
Qed.

Lemma palavra_last (w : str) :
  palavra w -> exists w' x, w = w' ++ [x] /\ isspace x = false.
Proof.
  intros [Hne Hw]; destruct (exists_last Hne) as (w' & x & ->).
  exists w', x; split; [reflexivity|].
  rewrite Forall_forall in Hw; apply Hw, in_or_app; right; left; reflexivity.
Qed.

Lemma palavra_sem_branco (w a b : str) (c : char) :
  palavra w -> w = a ++ c :: b -> isspace c = true -> False.
Proof.
  intros [_ Hw] -> Hc; rewrite Forall_forall in Hw.
  rewrite Hw in Hc; [discriminate|].
  apply in_or_app; right; left; reflexivity.
Qed.

Lemma join_espacos_simples (ws : list str) :
  Forall palavra ws -> espacos_simples (join [SPACE] ws).
Proof.
  induction 1 as [|w ws Hw Hws IH]; intros a c b E Hc.
  - destruct a; discriminate.
  - destruct ws as [|w2 ws].
    + exfalso; exact (palavra_sem_branco w a b c Hw E Hc).
    + rewrite join_cons2 in E.
      assert (HJ : exists y b', join [SPACE] (w2 :: ws) = y :: b'
                                /\ isspace y = false).
      { inversion Hws; subst.
        destruct (join_head w2 ws) as (y & r & Er & Hy); eauto. }
      remember (join [SPACE] (w2 :: ws)) as J eqn:EJ.
      change ([SPACE] ++ J) with (SPACE :: J) in E.
      apply app_eq_app in E; destruct E as [l [[Ew El] | [Ea El]]].
      * destruct l as [|x l]; simpl in El.
        -- injection El as Ec Eb; rewrite app_nil_r in Ew; subst a b.
           split; [exact Ec|]; split; [apply palavra_last; exact Hw | exact HJ].
        -- exfalso; injection El as Ec _; subst x.
           exact (palavra_sem_branco w a l c Hw Ew Hc).
      * destruct l as [|x l]; simpl in El.
        -- injection El as Ec Eb; rewrite app_nil_r in Ea; subst a b.
           split; [symmetry; exact Ec|]; split;
             [apply palavra_last; exact Hw | exact HJ].
        -- injection El as Ex El; subst x.
           destruct (IH l c b El Hc) as (Ec & (a' & x & -> & Hx) & Hb).
           split; [exact Ec|]; split; [|exact Hb].
           exists (w ++ SPACE :: a'), x; split; [|exact Hx].
           rewrite Ea, <- app_assoc; reflexivity.
Qed.

Lemma espacos_simples_lstrip (r : str) : espacos_simples r -> lstrip r = r.
Proof.
  intros H; destruct r as [|c r]; [reflexivity|].
  simpl; destruct (isspace c) eqn:Hc; [|reflexivity].
  destruct (H [] c r eq_refl Hc) as (_ & (a' & x & E & _) & _).
  destruct a'; discriminate.
Qed.

Lemma espacos_simples_rstrip (r : str) : espacos_simples r -> rstrip r = r.
Proof.
  intros H; unfold rstrip.
  destruct r as [|c0 r0] using rev_ind; [reflexivity|].
  rewrite rev_app_distr; simpl.
  destruct (isspace c0) eqn:Hc.
  - destruct (H r0 c0 [] eq_refl Hc) as (_ & _ & (y & b' & E & _)).
    discriminate.
  - simpl; rewrite rev_involutive; reflexivity.
Qed.

(** C7. The sanitised name holds none of the nine characters less-than,
    greater-than, colon, double quote, slash, backslash, bar, question mark
    and asterisk;
    it is the input without those characters, with every run of blanks
    turned into one space and the blanks at both ends dropped: each blank
    left is a single space between two non-blank characters, and
    stripping changes nothing. *)
Theorem limpar_nome_arquivo_correto (nome : str) :
  (forall c, In c invalid_chars -> ~ In c (limpar_nome_arquivo nome))
  /\ invalid_chars = py "<>:" ++ [34] ++ py "/\|?*"
  /\ limpar_nome_arquivo nome =
       normalizar_espacos (filter (fun c => negb (invalido c)) nome)
  /\ (forall c, In c (filter (fun c => negb (invalido c)) nome) <->
                In c nome /\ ~ In c invalid_chars)
  /\ espacos_simples (limpar_nome_arquivo nome)
  /\ strip (limpar_nome_arquivo nome) = limpar_nome_arquivo nome.
Proof.
  assert (Hs : espacos_simples (limpar_nome_arquivo nome))
    by apply join_espacos_simples, split_palavras.
  assert (Hinv : forall c, invalido c = true <-> In c invalid_chars).
  { intros c; unfold invalido; rewrite existsb_exists; split.
    - intros (x & Hx & E); apply N.eqb_eq in E; subst; exact Hx.
    - intros Hc; exists c; split; [exact Hc | apply N.eqb_refl]. }
  split; [|split; [|split; [|split; [|split]]]].
  - intros c Hc Hin; apply limpar_nome_arquivo_valido in Hin.
    apply Hinv in Hc; congruence.
  - reflexivity.
  - apply limpar_nome_arquivo_normaliza.
  - intros c; rewrite filter_In, negb_true_iff, <- Hinv.
    destruct (invalido c); split; intros [H1 H2]; split; auto; congruence.
  - exact Hs.
  - unfold strip; rewrite (espacos_simples_lstrip _ Hs).
    apply espacos_simples_rstrip; exact Hs.
Qed.

(** C8. Sanitising twice is sanitising once. *)
Theorem limpar_nome_arquivo_idempotente (x : str) :
  limpar_nome_arquivo (limpar_nome_arquivo x) = limpar_nome_arquivo x.
Proof.
  unfold limpar_nome_arquivo at 1.
  rewrite re_sub_class_id by apply limpar_nome_arquivo_valido.
  unfold limpar_nome_arquivo; rewrite split_join by apply split_palavras.
  reflexivity.
Qed.

(** ** The temporary directory *)

Lemma ler_gravar_eq (a : area) (p : caminho) (n : no) :
  ler (gravar a p n) p = Some n.
Proof.
  induction a as [|[q m] a IH]; simpl.
  - rewrite caminho_eqb_refl; reflexivity.
  - destruct (caminho_eqb q p) eqn:E; simpl; rewrite E; auto.
Qed.

Lemma ler_gravar_neq (a : area) (p q : caminho) (n : no) :
  p <> q -> ler (gravar a p n) q = ler a q.
Proof.
  intros Hpq; induction a as [|[r m] a IH]; simpl.
  - rewrite caminho_eqb_neq by assumption; reflexivity.
  - destruct (caminho_eqb r p) eqn:E; simpl.
    + apply caminho_eqb_eq in E; subst r.
      rewrite caminho_eqb_neq by assumption; reflexivity.
    + rewrite IH; reflexivity.
Qed.

Lemma ler_remover_eq (a : area) (p : caminho) : ler (remover a p) p = None.
Proof.
  induction a as [|[q m] a IH]; simpl; [reflexivity|].
  destruct (caminho_eqb q p) eqn:E; simpl; [exact IH|].
  rewrite E; exact IH.
Qed.

Lemma ler_remover_neq (a : area) (p q : caminho) :
  p <> q -> ler (remover a p) q = ler a q.
Proof.
  intros Hpq; induction a as [|[r m] a IH]; simpl; [reflexivity|].
  destruct (caminho_eqb r p) eqn:E; simpl.
  - apply caminho_eqb_eq in E; subst r.
    rewrite caminho_eqb_neq by assumption; exact IH.
  - rewrite IH; reflexivity.
Qed.

(** What a successful [rename] does: the source is a regular file, the
    target holds its content afterwards, and every other path is as
    before (the source itself is gone unless it is the target). *)
Lemma rename_ok (a a' : area) (src dst : caminho) :
  rename a src dst = inr a' ->
  exists c,
    ler a src = Some (Arquivo c)
    /\ ler a dst <> Some Diretorio
    /\ ler a' dst = Some (Arquivo c)
    /\ (forall q, q <> dst -> ler a' q = if caminho_eqb src q then None
                                         else ler a q).
Proof.
  unfold rename.
  destruct (existsb (existsb surrogate) dst); [discriminate|].
  destruct (existsb (existsb (N.eqb 0)) dst); [discriminate|].
  destruct (ler a src) as [[c|]|] eqn:Es; try discriminate.
  destruct (existsb (fun x => NAME_MAX <? fs_length x) dst); [discriminate|].
  intros H; exists c.
  assert (E : a' = gravar (remover a src) dst (Arquivo c)
              /\ ler a dst <> Some Diretorio).
  { destruct (ler a dst) as [[d|]|]; try discriminate;
      injection H as <-; split; auto; discriminate. }
  destruct E as [-> Hd]; repeat split; auto.
  - apply ler_gravar_eq.
  - intros q Hq; rewrite ler_gravar_neq by auto.
    destruct (caminho_eqb src q) eqn:E.
    + apply caminho_eqb_eq in E; subst q; apply ler_remover_eq.
    + apply ler_remover_neq; intros ->; rewrite caminho_eqb_refl in E.
      discriminate.
Qed.

(** [rename] fails only on the name or on a folder at the target. *)
Lemma rename_arquivo (a : area) (src dst : caminho) (c : pdf) :
  ler a src = Some (Arquivo c) ->
  existsb (existsb (N.eqb 0)) dst = false ->
  existsb (existsb surrogate) dst = false ->
  existsb (fun x => NAME_MAX <? fs_length x) dst = false ->
  ler a dst <> Some Diretorio ->
  rename a src dst = inr (gravar (remover a src) dst (Arquivo c)).
Proof.
  intros Hs H0 H1 H2 Hd; unfold rename; rewrite H1, H0, Hs, H2.
  destruct (ler a dst) as [[d|]|]; try reflexivity; contradiction.
Qed.

Lemma extrair_info_comprovante_ler (a : area) (p : caminho) :
  fst (extrair_info_comprovante a p) =
    match ler a p with
    | Some (Arquivo c) => info_de c
    | _ => (None, None, None)
    end.
Proof.
  unfold extrair_info_comprovante, primeira_pagina.
  destruct (ler a p) as [[[|[|t ts]]|]|]; reflexivity.
Qed.

(** The function shows an error exactly when it could not read a page. *)
Lemma extrair_info_comprovante_erro (a : area) (p : caminho) (ex : excecao) :
  primeira_pagina a p = inl ex ->
  extrair_info_comprovante a p = ((None, None, None), [StError ex]).
Proof. intros H; unfold extrair_info_comprovante; rewrite H; reflexivity. Qed.

Lemma extrair_info_comprovante_texto (a : area) (p : caminho) (texto : str) :
  primeira_pagina a p = inr texto ->
  extrair_info_comprovante a p = (extrair_info_texto texto, []).
Proof. intros H; unfold extrair_info_comprovante; rewrite H; reflexivity. Qed.

(** ** One iteration *)

Lemma destino_info (c : pdf) (nm : str) :
  destino c = Some nm ->
  truthy (data_de (info_de c)) && truthy (destinatario_de (info_de c)) = true
  /\ nm = formatar_nome (valor (data_de (info_de c)))
            (limpar_nome_arquivo (valor (destinatario_de (info_de c)))).
Proof.
  unfold destino.
  destruct (truthy (data_de (info_de c)) && truthy (destinatario_de (info_de c)));
    [intros [= <-]; auto | discriminate].
Qed.

(** The three outcomes of an iteration, read off the directory. *)
Lemma passo_casos (e : estado) (p : caminho) :
  let '(i, ms) := extrair_info_comprovante (temp e) p in
  (* a file that is renamed *)
  (exists c nm a',
     ler (temp e) p = Some (Arquivo c) /\ destino c = Some nm
     /\ rename (temp e) p [nm] = inr a'
     /\ passo e p =
          acrescenta e a' [[nm]]
            [{| original := name p; novo_nome := nm; estado_final := Sucesso;
                tipo_texto := tipo_or_desconhecido (tipo_de i);
                data := valor (data_de i);
                destinatario :=
                  limpar_nome_arquivo (valor (destinatario_de i)) |}] ms)
  (* a file whose renaming fails *)
  \/ (exists c nm ex,
        ler (temp e) p = Some (Arquivo c) /\ destino c = Some nm
        /\ rename (temp e) p [nm] = inl ex
        /\ passo e p =
             acrescenta e (temp e) []
               [{| original := name p; novo_nome := py "-";
                   estado_final := ErroAoRenomear ex;
                   tipo_texto := tipo_or_desconhecido (tipo_de i);
                   data := valor (data_de i);
                   destinatario :=
                     limpar_nome_arquivo (valor (destinatario_de i)) |}] ms)
  (* a date or a payee is missing *)
  \/ (truthy (data_de i) && truthy (destinatario_de i) = false
      /\ passo e p =
           acrescenta e (temp e) []
             [{| original := name p; novo_nome := py "-";
                 estado_final := NaoEncontradas;
                 tipo_texto := tipo_or_desconhecido (tipo_de i);
                 data := py_or (data_de i) (py "N/A");
                 destinatario := py_or (destinatario_de i) (py "N/A") |}] ms).
Proof.
  pose proof (extrair_info_comprovante_ler (temp e) p) as Hl.
  unfold passo.
  destruct (extrair_info_comprovante (temp e) p) as [[[dt dest] tp] ms].
  cbn [fst] in Hl; cbn [data_de destinatario_de tipo_de fst snd].
  destruct (truthy dt && truthy dest) eqn:Ht.
  - assert (Hc : exists c, ler (temp e) p = Some (Arquivo c)
                           /\ info_de c = (dt, dest, tp)).
    { destruct (ler (temp e) p) as [[c|]|]; eauto;
        injection Hl as -> -> ->; discriminate. }
    destruct Hc as (c & Hc & Hi).
    assert (Hd : destino c =
                 Some (formatar_nome (valor dt)
                         (limpar_nome_arquivo (valor dest)))).
    { unfold destino; rewrite Hi; cbn [data_de destinatario_de fst snd].
      rewrite Ht; reflexivity. }
    destruct (rename (temp e) p
                [formatar_nome (valor dt) (limpar_nome_arquivo (valor dest))])
      as [ex | a'] eqn:Er.
    + right; left; eexists c, _, ex; repeat split; eauto.
      unfold acrescenta; rewrite app_nil_r; reflexivity.
    + left; eexists c, _, a'; repeat split; eauto.
  - right; right; split; [reflexivity|].
    unfold acrescenta; rewrite app_nil_r; reflexivity.
Qed.

Lemma acrescenta_acrescenta e a1 n1 r1 m1 a2 n2 r2 m2 :
  acrescenta (acrescenta e a1 n1 r1 m1) a2 n2 r2 m2 =
  acrescenta e a2 (n1 ++ n2) (r1 ++ r2) (m1 ++ m2).
Proof. unfold acrescenta; simpl; rewrite !app_assoc; reflexivity. Qed.

Lemma acrescenta_nada (e : estado) : acrescenta e (temp e) [] [] [] = e.
Proof. destruct e; unfold acrescenta; simpl; rewrite !app_nil_r; reflexivity. Qed.

(** An iteration reads nothing but the directory: started in two states
    with the same directory, it leaves the same directory and appends the
    same paths, the same single record and the same messages. *)
Lemma passo_frame (e e' : estado) (p : caminho) :
  temp e = temp e' ->
  exists a' novos r ms,
    passo e p = acrescenta e a' novos [r] ms
    /\ passo e' p = acrescenta e' a' novos [r] ms.
Proof.
  intros H; unfold passo; rewrite <- H.
  destruct (extrair_info_comprovante (temp e) p) as [[[dt dest] tp] ms].
  destruct (truthy dt && truthy dest).
  - destruct (rename (temp e) p _) as [ex | a'].
    + exists (temp e), []; do 2 eexists; unfold acrescenta.
      rewrite (app_nil_r (arquivos_renomeados e)),
        (app_nil_r (arquivos_renomeados e')); split; reflexivity.
    + exists a'; do 3 eexists; unfold acrescenta; split; reflexivity.
  - exists (temp e), []; do 2 eexists; unfold acrescenta.
    rewrite (app_nil_r (arquivos_renomeados e)),
      (app_nil_r (arquivos_renomeados e')); split; reflexivity.
Qed.

Lemma laco_frame (l : list caminho) (e e' : estado) :
  temp e = temp e' ->
  exists a' novos rs ms,
    laco e l = acrescenta e a' novos rs ms
    /\ laco e' l = acrescenta e' a' novos rs ms
    /\ List.length rs = List.length l.
Proof.
  revert e e'; induction l as [|p l IH]; intros e e' H.
  - exists (temp e), [], [], []; simpl.
    rewrite acrescenta_nada, H, acrescenta_nada; auto.
  - destruct (passo_frame e e' p H) as (a1 & n1 & r1 & m1 & E1 & E1').
    destruct (IH (passo e p) (passo e' p)) as (a2 & n2 & r2 & m2 & E2 & E2' & L).
    { rewrite E1, E1'; reflexivity. }
    exists a2, (n1 ++ n2), ([r1] ++ r2), (m1 ++ m2); simpl laco.
    rewrite E2, E2', E1, E1', !acrescenta_acrescenta.
    repeat split; simpl; rewrite L; reflexivity.
Qed.

Lemma laco_app (e : estado) (l1 l2 : list caminho) :
  laco e (l1 ++ l2) = laco (laco e l1) l2.
Proof. apply fold_left_app. Qed.

Lemma laco_resultados_length (l : list caminho) (e : estado) :
  List.length (resultados (laco e l)) =
  (List.length (resultados e) + List.length l)%nat.
Proof.
  destruct (laco_frame l e e eq_refl) as (a' & n & rs & ms & E & _ & L).
  rewrite E; simpl; rewrite length_app, L; reflexivity.
Qed.

(** ** What the list of renamed paths holds *)

Lemma passo_renomeados_ok (e : estado) (p : caminho) :
  renomeados_ok (temp e) (arquivos_renomeados e) ->
  renomeados_ok (temp (passo e p)) (arquivos_renomeados (passo e p)).
Proof.
  intros Inv; pose proof (passo_casos e p) as H.
  destruct (extrair_info_comprovante (temp e) p) as [i ms].
  destruct H as [(c & nm & a' & Hc & Hd & Hr & ->)
                | [(c & nm & ex & _ & _ & _ & ->) | [_ ->]]];
    simpl; try (rewrite app_nil_r; exact Inv).
  destruct (rename_ok _ _ _ _ Hr) as (c' & Hc' & _ & Hdst & Hout).
  assert (c' = c) by congruence; subst c'.
  unfold renomeados_ok; apply Forall_app; split.
  - unfold renomeados_ok in Inv; rewrite Forall_forall in Inv |- *.
    intros q Hq; destruct (Inv q Hq) as (nm' & c' & -> & Hl & Hd').
    destruct (list_eq_dec N.eq_dec nm' nm) as [-> | Hne].
    + exists nm, c; auto.
    + exists nm', c'; repeat split; auto.
      rewrite Hout by congruence.
      destruct (caminho_eqb p [nm']) eqn:E; [|exact Hl].
      apply caminho_eqb_eq in E; subst p; congruence.
  - constructor; [|constructor]; exists nm, c; auto.
Qed.

Lemma laco_renomeados_ok (l : list caminho) (e : estado) :
  renomeados_ok (temp e) (arquivos_renomeados e) ->
  renomeados_ok (temp (laco e l)) (arquivos_renomeados (laco e l)).
Proof.
  revert e; induction l as [|p l IH]; intros e H; [exact H|].
  apply IH, passo_renomeados_ok, H.
Qed.

Lemma name_um (nm : str) : name [nm] = nm.
Proof. reflexivity. Qed.

(** Packing the renamed files: when it succeeds there is one entry per
    listed path, named by the path's name, each holding a file that
    extracts to that name, and no name holds a surrogate. *)
Lemma empacotar_inr (a : area) (l : list caminho) (z : zip) :
  renomeados_ok a l ->
  empacotar a l = inr z ->
  map fst z = map name l
  /\ Forall (fun en => exists c, snd en = Arquivo c
                                 /\ ler a [fst en] = Some (Arquivo c)
                                 /\ destino c = Some (fst en)) z.
Proof.
  intros H; revert z.
  induction H as [|q l (nm & c & -> & Hl & Hd) _ IH]; intros z.
  - intros [= <-]; split; constructor.
  - cbn [empacotar]; rewrite Hl; change (name [nm]) with nm.
    destruct (existsb surrogate_qualquer nm); [discriminate|].
    destruct (empacotar a l) as [e | z']; [discriminate|].
    intros [= <-]; destruct (IH z' eq_refl) as [Hn Hz]; split.
    + cbn [map fst]; rewrite Hn; reflexivity.
    + constructor; [exists c; auto | exact Hz].
Qed.

(** Packing fails exactly when a listed name holds a surrogate, and then
    with [UnicodeEncodeError]: the files themselves are always there. *)
Lemma empacotar_casos (a : area) (l : list caminho) :
  renomeados_ok a l ->
  if existsb (fun q => existsb surrogate_qualquer (name q)) l
  then empacotar a l = inl UnicodeEncodeError
  else exists z, empacotar a l = inr z.
Proof.
  induction 1 as [|q l (nm & c & -> & Hl & Hd) _ IH].
  - exists []; reflexivity.
  - cbn [existsb empacotar]; rewrite Hl; change (name [nm]) with nm.
    destruct (existsb surrogate_qualquer nm); [reflexivity|].
    cbn [orb].
    destruct (existsb (fun q => existsb surrogate_qualquer (name q)) l).
    + rewrite IH; reflexivity.
    + destruct IH as (z & ->); eauto.
Qed.

(** The renamed paths are the new names of the records that succeeded, in
    order. *)
Lemma passo_renomeados_resultados (e : estado) (p : caminho) :
  arquivos_renomeados e =
    map (fun r => [novo_nome r]) (filter sucesso (resultados e)) ->
  arquivos_renomeados (passo e p) =
    map (fun r => [novo_nome r]) (filter sucesso (resultados (passo e p))).
Proof.
  intros Inv; pose proof (passo_casos e p) as H.
  destruct (extrair_info_comprovante (temp e) p) as [i ms].
  destruct H as [(c & nm & a' & _ & _ & _ & ->)
                | [(c & nm & ex & _ & _ & _ & ->) | [_ ->]]];
    simpl; rewrite filter_app, map_app, Inv; reflexivity.
Qed.

Lemma laco_renomeados_resultados (l : list caminho) (e : estado) :
  arquivos_renomeados e =
    map (fun r => [novo_nome r]) (filter sucesso (resultados e)) ->
  arquivos_renomeados (laco e l) =
    map (fun r => [novo_nome r]) (filter sucesso (resultados (laco e l))).
Proof.
  revert e; induction l as [|p l IH]; intros e H; [exact H|].
  apply IH, passo_renomeados_resultados, H.
Qed.

Lemma existsb_nome_nao_codificavel (res : list registro) :
  existsb (fun q => existsb surrogate_qualquer (name q))
    (map (fun r => [novo_nome r]) (filter sucesso res)) =
  nome_nao_codificavel res.
Proof.
  unfold nome_nao_codificavel; induction res as [|r res IH]; [reflexivity|].
  cbn [filter existsb]; destruct (sucesso r); cbn [map existsb andb orb];
    rewrite IH; reflexivity.
Qed.

Lemma laco_empacotar_casos (temp_path : area) (l : list caminho) :
  if nome_nao_codificavel (resultados (laco (inicial temp_path) l))
  then empacotar (temp (laco (inicial temp_path) l))
         (arquivos_renomeados (laco (inicial temp_path) l))
       = inl UnicodeEncodeError
  else exists z,
         empacotar (temp (laco (inicial temp_path) l))
           (arquivos_renomeados (laco (inicial temp_path) l)) = inr z.
Proof.
  set (ef := laco (inicial temp_path) l).
  assert (Hok : renomeados_ok (temp ef) (arquivos_renomeados ef))
    by (apply laco_renomeados_ok; constructor).
  pose proof (empacotar_casos _ _ Hok) as Hc.
  assert (Ea : arquivos_renomeados ef =
               map (fun r => [novo_nome r]) (filter sucesso (resultados ef)))
    by (apply laco_renomeados_resultados; reflexivity).
  rewrite Ea, existsb_nome_nao_codificavel in Hc; rewrite <- Ea in Hc.
  exact Hc.
Qed.

(** With at least one PDF, [processar_zip] runs the loop and packs: it
    raises [UnicodeEncodeError] when some file was renamed to a name with
    a surrogate, and returns the archive and the records otherwise. *)
Lemma processar_zip_casos (temp_path : area) :
  rglob_pdf temp_path <> [] ->
  if nome_nao_codificavel
       (resultados (laco (inicial temp_path) (rglob_pdf temp_path)))
  then processar_zip temp_path =
         (Levanta UnicodeEncodeError,
          mensagens (laco (inicial temp_path) (rglob_pdf temp_path)))
  else exists z,
         empacotar
           (temp (laco (inicial temp_path) (rglob_pdf temp_path)))
           (arquivos_renomeados
              (laco (inicial temp_path) (rglob_pdf temp_path))) = inr z
         /\ processar_zip temp_path =
              (Retorna (Some z)
                 (resultados (laco (inicial temp_path) (rglob_pdf temp_path))),
               mensagens (laco (inicial temp_path) (rglob_pdf temp_path))).
Proof.
  intros Hne; unfold processar_zip.
  destruct (rglob_pdf temp_path) as [|p l] eqn:El; [contradiction|].
  fold (inicial temp_path).
  set (ef := laco (inicial temp_path) (p :: l)).
  assert (Hok : renomeados_ok (temp ef) (arquivos_renomeados ef))
    by (apply laco_renomeados_ok; constructor).
  pose proof (empacotar_casos _ _ Hok) as Hc.
  assert (Ea : arquivos_renomeados ef =
               map (fun r => [novo_nome r]) (filter sucesso (resultados ef)))
    by (apply laco_renomeados_resultados; reflexivity).
  rewrite Ea, existsb_nome_nao_codificavel in Hc; rewrite <- Ea in Hc.
  destruct (nome_nao_codificavel (resultados ef)).
  - rewrite Hc; reflexivity.
  - destruct Hc as (z & Ez); exists z; rewrite Ez; auto.
Qed.

(** What [processar_zip] has done when it returns. *)
Lemma processar_zip_retorna_inv (temp_path : area) (out : option zip)
  (res : list registro) (ms : list mensagem) :
  processar_zip temp_path = (Retorna out res, ms) ->
  rglob_pdf temp_path = [] /\ out = None /\ res = [] /\ ms = [StWarning]
  \/ rglob_pdf temp_path <> []
     /\ res = resultados (laco (inicial temp_path) (rglob_pdf temp_path))
     /\ ms = mensagens (laco (inicial temp_path) (rglob_pdf temp_path))
     /\ exists z,
          out = Some z
          /\ empacotar
               (temp (laco (inicial temp_path) (rglob_pdf temp_path)))
               (arquivos_renomeados
                  (laco (inicial temp_path) (rglob_pdf temp_path))) = inr z
          /\ map fst z = map novo_nome (filter sucesso res)
          /\ Forall (fun en => exists c,
                       snd en = Arquivo c
                       /\ ler (temp (laco (inicial temp_path)
                                       (rglob_pdf temp_path))) [fst en]
                          = Some (Arquivo c)
                       /\ destino c = Some (fst en)) z.
Proof.
  intros H.
  destruct (rglob_pdf temp_path) as [|p l] eqn:El.
  - left; unfold processar_zip in H; rewrite El in H.
    injection H as <- <- <-; auto.
  - right; split; [discriminate|].
    pose proof (processar_zip_casos temp_path) as Hc; rewrite El in Hc.
    specialize (Hc ltac:(discriminate)).
    set (ef := laco (inicial temp_path) (p :: l)) in *.
    destruct (nome_nao_codificavel (resultados ef)); [congruence|].
    destruct Hc as (z & Ez & Hp); rewrite Hp in H.
    injection H as <- <- <-; split; [reflexivity|]; split; [reflexivity|].
    exists z; split; [reflexivity|]; split; [exact Ez|].
    assert (Hok : renomeados_ok (temp ef) (arquivos_renomeados ef))
      by (apply laco_renomeados_ok; constructor).
    destruct (empacotar_inr _ _ _ Hok Ez) as [Hn Hz]; split; [|exact Hz].
    rewrite Hn; unfold ef.
    rewrite laco_renomeados_resultados by reflexivity.
    rewrite map_map; apply map_ext; reflexivity.
Qed.

(** ** The extracted date *)

Lemma re_search_some (r : regex) (s g : str) :
  re_search r s = Some g ->
  exists a b, s = a ++ b /\ run r b [] (fun _ g => Some g) = Some g.
Proof.
  induction s as [|c s IH]; simpl.
  - destruct (run r [] [] (fun _ g => Some g)) eqn:E; [|discriminate].
    intros [= ->]; exists [], []; auto.
  - destruct (run r (c :: s) [] (fun _ g => Some g)) eqn:E.
    + intros [= ->]; exists [], (c :: s); auto.
    + intros H; destruct (IH H) as (a & b & -> & Hb).
      exists (c :: a), b; auto.
Qed.

Lemma star_some {R : Type} (p : char -> bool) (s : str)
  (k : str -> option R) (x : R) :
  star p s k = Some x -> exists s', k s' = Some x.
Proof.
  induction s as [|c s IH]; simpl; [eauto|].
  destruct (p c); [|eauto].
  destruct (star p s k) eqn:E; [|eauto].
  intros [= ->]; apply IH; reflexivity.
Qed.

Lemma isdecimal_bloco (c : char) :
  isdecimal c = true ->
  exists b, In b decimal_blocks /\ fst b <= c <= snd b.
Proof.
  unfold isdecimal; rewrite existsb_exists.
  intros (b & Hb & H); exists b; split; [exact Hb|].
  apply andb_true_iff in H; rewrite !N.leb_le in H; exact H.
Qed.

Lemma isdecimal_faixa (c : char) :
  isdecimal c = true -> 48 <= c /\ (c <= 44025 \/ 65296 <= c).
Proof.
  intros H; apply isdecimal_bloco in H; destruct H as (b & Hb & Hc).
  assert (Hall : forallb (fun b => (48 <=? fst b)
                                   && ((snd b <=? 44025) || (65296 <=? fst b)))
                   decimal_blocks = true) by (vm_compute; reflexivity).
  rewrite forallb_forall in Hall; specialize (Hall b Hb).
  rewrite andb_true_iff, orb_true_iff, !N.leb_le in Hall; lia.
Qed.

Lemma isdecimal_nao_barra (c : char) :
  isdecimal c = true -> (if c =? SLASH then HYPHEN else c) = c.
Proof.
  intros H; apply isdecimal_faixa in H.
  destruct (N.eqb_spec c SLASH) as [-> | _]; [|reflexivity].
  unfold SLASH in H; lia.
Qed.

Lemma startswith_skipn (s l : str) :
  startswith s l = true -> s = l ++ skipn (List.length l) s.
Proof.
  revert s; induction l as [|x l IH]; intros [|y s]; simpl;
    try reflexivity; try discriminate.
  rewrite andb_true_iff, N.eqb_eq; intros [-> H].
  rewrite <- IH by assumption; reflexivity.
Qed.

(** Closes a goal whose premise equates [None], possibly under tests of
    characters, with [Some _]. *)
Ltac sem_casamento :=
  repeat match goal with
         | |- (if ?b then _ else _) = Some _ -> _ => destruct b
         end;
  let H := fresh in intros H; discriminate H.

(** The text captured by the group of a date pattern, after
    [replace('/', '-')]. *)
Lemma run_group_dmy (s g0 g : str) :
  run (Group re_dmy) s g0 (fun _ g => Some g) = Some g ->
  formato_data (replace SLASH HYPHEN g) = true.
Proof.
  unfold re_dmy; cbn [run rep].
  destruct s as [|d1 [|d2 s2]]; cbv beta iota; try sem_casamento.
  destruct (isdecimal d1) eqn:H1; [|sem_casamento].
  destruct (isdecimal d2) eqn:H2; [|sem_casamento].
  destruct (startswith s2 (py "/")) eqn:E3; [|sem_casamento].
  apply startswith_skipn in E3.
  destruct (skipn (List.length (py "/")) s2) as [|m1 [|m2 s5]];
    cbv beta iota; try sem_casamento.
  destruct (isdecimal m1) eqn:H3; [|sem_casamento].
  destruct (isdecimal m2) eqn:H4; [|sem_casamento].
  destruct (startswith s5 (py "/")) eqn:E6; [|sem_casamento].
  apply startswith_skipn in E6.
  destruct (skipn (List.length (py "/")) s5) as [|y1 [|y2 [|y3 [|y4 s10]]]];
    cbv beta iota; try sem_casamento.
  destruct (isdecimal y1) eqn:H5; [|sem_casamento].
  destruct (isdecimal y2) eqn:H6; [|sem_casamento].
  destruct (isdecimal y3) eqn:H7; [|sem_casamento].
  destruct (isdecimal y4) eqn:H8; [|sem_casamento].
  subst s5 s2; change (py "/") with [SLASH]; cbn [app List.length].
  match goal with
  | |- context [firstn ?n _] => replace n with 10%nat by lia
  end.
  intros [= <-]; cbn [firstn replace map formato_data].
  rewrite (isdecimal_nao_barra d1), (isdecimal_nao_barra d2),
    (isdecimal_nao_barra m1), (isdecimal_nao_barra m2),
    (isdecimal_nao_barra y1), (isdecimal_nao_barra y2),
    (isdecimal_nao_barra y3), (isdecimal_nao_barra y4) by assumption.
  rewrite H1, H2, H3, H4, H5, H6, H7, H8; reflexivity.
Qed.

Lemma extrair_data_formato (l : str) (texto d : str) :
  extrair_data (Seq (Lit l) (Seq (Star isspace) (Group re_dmy))) texto = Some d ->
  formato_data d = true.
Proof.
  unfold extrair_data.
  destruct (re_search _ texto) as [g|] eqn:E; [|discriminate].
  intros [= <-]; apply re_search_some in E.
  destruct E as (a & b & _ & E); cbn [run] in E.
  destruct (startswith b l); [|discriminate].
  apply star_some in E; destruct E as (s' & E).
  apply run_group_dmy in E; exact E.
Qed.

(** A date returned by the extractor has the shape DD-MM-YYYY. *)
Lemma extrair_info_texto_data (texto d : str) :
  data_de (extrair_info_texto texto) = Some d -> formato_data d = true.
Proof.
  unfold extrair_info_texto.
  repeat match goal with
         | |- context [if ?b then _ else _] => destruct b
         end; cbn [data_de fst]; try discriminate;
    apply extrair_data_formato.
Qed.

Lemma info_de_data (c : pdf) (d : str) :
  data_de (info_de c) = Some d -> formato_data d = true.
Proof.
  destruct c as [|[|t ts]]; cbn [info_de data_de fst]; try discriminate.
  apply extrair_info_texto_data.
Qed.

(** ** The new name *)

Lemma formato_data_chars (d : str) (x : char) :
  formato_data d = true -> In x d -> x = HYPHEN \/ isdecimal x = true.
Proof.
  destruct d as [|d1 [|d2 [|h1 [|m1 [|m2 [|h2 [|y1 [|y2 [|y3 [|y4 [|z d]]]]]]]]]]];
    try discriminate.
  cbn [formato_data]; rewrite !andb_true_iff, !N.eqb_eq.
  intros H Hin; simpl in Hin; decompose [and] H; clear H.
  repeat destruct Hin as [<- | Hin]; auto; contradiction.
Qed.

Lemma formato_data_length (d : str) :
  formato_data d = true -> List.length d = 10%nat.
Proof.
  destruct d as [|d1 [|d2 [|h1 [|m1 [|m2 [|h2 [|y1 [|y2 [|y3 [|y4 [|z d]]]]]]]]]]];
    try discriminate; reflexivity.
Qed.

Lemma fs_bytes_le (c : char) : 1 <= fs_bytes c <= 4.
Proof.
  unfold fs_bytes.
  destruct (c <? 128); [lia|]. destruct (c <? 2048); [lia|].
  destruct ((56448 <=? c) && (c <=? 56575)); [lia|].
  destruct (c <? 65536); lia.
Qed.

Lemma fs_length_app (a b : str) : fs_length (a ++ b) = fs_length a + fs_length b.
Proof.
  unfold fs_length; induction a as [|c a IH]; simpl; [reflexivity|].
  rewrite IH; lia.
Qed.

Lemma fs_length_le (s : str) : fs_length s <= 4 * N.of_nat (List.length s).
Proof.
  unfold fs_length; induction s as [|c s IH]; simpl List.length; simpl fold_right.
  - lia.
  - pose proof (fs_bytes_le c); lia.
Qed.

Lemma existsb_false_app {A : Type} (f : A -> bool) (a b : list A) :
  existsb f a = false -> existsb f b = false -> existsb f (a ++ b) = false.
Proof. intros Ha Hb; rewrite existsb_app, Ha, Hb; reflexivity. Qed.

Lemma data_sem_nulo (d : str) :
  formato_data d = true ->
  existsb (N.eqb 0) d = false /\ existsb surrogate d = false.
Proof.
  intros H.
  assert (Hx : forall x, In x d -> (0 =? x) = false /\ surrogate x = false).
  { intros x Hin; destruct (formato_data_chars d x H Hin) as [-> | Hd];
      [split; reflexivity|].
    apply isdecimal_faixa in Hd; unfold surrogate; split.
    - apply N.eqb_neq; lia.
    - rewrite !andb_false_iff, !N.leb_gt; lia. }
  split; apply not_true_is_false; rewrite existsb_exists;
    intros (x & Hin & Hp); destruct (Hx x Hin); congruence.
Qed.

(** A date followed by [" - .pdf"] is a name the file system takes. *)
Lemma nome_so_data_aceito (d : str) :
  formato_data d = true ->
  existsb (existsb (N.eqb 0)) [formatar_nome d []] = false
  /\ existsb (existsb surrogate) [formatar_nome d []] = false
  /\ existsb (fun x => NAME_MAX <? fs_length x) [formatar_nome d []] = false.
Proof.
  intros H; destruct (data_sem_nulo d H) as [H0 H1].
  unfold formatar_nome; cbn [existsb]; rewrite !orb_false_r.
  repeat split.
  - apply existsb_false_app; [exact H0 | reflexivity].
  - apply existsb_false_app; [exact H1 | reflexivity].
  - rewrite fs_length_app; apply N.ltb_ge.
    pose proof (fs_length_le d) as Hl.
    rewrite (formato_data_length d H) in Hl.
    change (fs_length (py " - " ++ [] ++ py ".pdf")) with 7.
    unfold NAME_MAX; lia.
Qed.

Lemma In_replace (a b x : char) (s : str) :
  a <> b -> In x (replace a b s) -> x <> a.
Proof.
  intros Hab; unfold replace; rewrite in_map_iff; intros (c & <- & _).
  destruct (N.eqb_spec c a); congruence.
Qed.

(** The new name holds no slash: it names an entry directly under the
    temporary directory. *)
Lemma destino_sem_barra (c : pdf) (nm : str) :
  destino c = Some nm -> ~ In SLASH nm.
Proof.
  intros H; apply destino_info in H; destruct H as [Ht ->].
  apply andb_true_iff in Ht; destruct Ht as [Hd _].
  destruct (data_de (info_de c)) as [d|] eqn:Ed; [|discriminate].
  apply info_de_data in Ed.
  unfold formatar_nome; rewrite !in_app_iff; intros [H | [H | [H | H]]].
  - destruct (formato_data_chars _ _ Ed H) as [E | E]; [discriminate|].
    apply isdecimal_faixa in E; unfold SLASH in E; lia.
  - vm_compute in H; intuition discriminate.
  - apply limpar_nome_arquivo_valido in H; discriminate.
  - vm_compute in H; intuition discriminate.
Qed.

(** ** processar_zip *)


(** The record of the file processed after [l1] is the one its iteration
    appends. *)
Lemma laco_registro (temp_path : area) (l1 l2 : list caminho)
  (p : caminho) (a' : area) (novos : list caminho) (r : registro)
  (ms0 : list mensagem) :
  passo (laco (inicial temp_path) l1) p =
    acrescenta (laco (inicial temp_path) l1) a' novos [r] ms0 ->
  exists depois,
    resultados (laco (inicial temp_path) (l1 ++ p :: l2)) =
      resultados (laco (inicial temp_path) l1) ++ r :: depois
    /\ List.length (resultados (laco (inicial temp_path) l1)) = List.length l1
    /\ List.length depois = List.length l2
    /\ (forall m, In m ms0 ->
          In m (mensagens (laco (inicial temp_path) (l1 ++ p :: l2)))).
Proof.
  intros Hp.
  change (l1 ++ p :: l2) with (l1 ++ [p] ++ l2).
  rewrite !laco_app.
  set (e1 := laco (inicial temp_path) l1) in *.
  change (laco (laco e1 [p]) l2) with (laco (passo e1 p) l2).
  destruct (laco_frame l2 (passo e1 p) (passo e1 p) eq_refl)
    as (a2 & n2 & rs & ms2 & E2 & _ & L2).
  rewrite E2, Hp; cbn [acrescenta resultados mensagens].
  exists rs; rewrite <- app_assoc; repeat split; auto.
  - unfold e1; rewrite laco_resultados_length; reflexivity.
  - intros m Hm; rewrite !in_app_iff; auto.
Qed.

Lemma processar_zip_registro (temp_path : area) (l1 l2 : list caminho)
  (p : caminho) (a' : area) (novos : list caminho) (r : registro)
  (ms0 : list mensagem) (out : option zip) (res : list registro)
  (ms : list mensagem) :
  rglob_pdf temp_path = l1 ++ p :: l2 ->
  passo (laco (inicial temp_path) l1) p =
    acrescenta (laco (inicial temp_path) l1) a' novos [r] ms0 ->
  processar_zip temp_path = (Retorna out res, ms) ->
  exists z depois,
    out = Some z
    /\ res = resultados (laco (inicial temp_path) l1) ++ r :: depois
    /\ List.length (resultados (laco (inicial temp_path) l1)) = List.length l1
    /\ List.length depois = List.length l2
    /\ (forall m, In m ms0 -> In m ms)
    /\ map fst z = map novo_nome (filter sucesso res)
    /\ Forall (fun en => exists c,
                 snd en = Arquivo c
                 /\ ler (temp (laco (inicial temp_path) (l1 ++ p :: l2)))
                      [fst en] = Some (Arquivo c)
                 /\ destino c = Some (fst en)) z.
Proof.
  intros El Hp H.
  destruct (processar_zip_retorna_inv _ _ _ _ H)
    as [(E0 & _) | (_ & Er & Em & z & Eo & _ & Hn & Hz)].
  { rewrite El in E0; destruct l1; discriminate. }
  rewrite El in Er, Em, Hz.
  destruct (laco_registro temp_path l1 l2 p a' novos r ms0 Hp)
    as (depois & E & L1 & L2 & Hm).
  exists z, depois; rewrite Er, Em; rewrite Er in Hn; auto 10.
Qed.



(** An archive is returned even when it holds no entry. *)
Example processar_zip_arquivo_vazio :
  fst (processar_zip [([py "c.pdf"], Arquivo Corrompido)]) =
  Retorna (Some []) [registro_ilegivel [py "c.pdf"]].
Proof. vm_compute; reflexivity. Qed.

(** An iteration whose file gives no date or no payee. *)
Lemma passo_campos_ausentes (e : estado) (p : caminho) (i : info)
  (ms0 : list mensagem) :
  extrair_info_comprovante (temp e) p = (i, ms0) ->
  truthy (data_de i) && truthy (destinatario_de i) = false ->
  passo e p =
    acrescenta e (temp e) []
      [{| original := name p; novo_nome := py "-";
          estado_final := NaoEncontradas;
          tipo_texto := tipo_or_desconhecido (tipo_de i);
          data := py_or (data_de i) (py "N/A");
          destinatario := py_or (destinatario_de i) (py "N/A") |}] ms0.
Proof.
  intros E H; unfold passo; rewrite E.
  destruct i as [[dt dest] tp]; cbn [data_de destinatario_de tipo_de fst snd] in *.
  rewrite H; unfold acrescenta; rewrite app_nil_r; reflexivity.
Qed.

(** C3. Take the PDF processed after the files [l1] of a batch.  When its
    text, as read at that moment, yields no date or no payee (a field is
    absent, or present but empty), its iteration leaves the directory and
    the list of renamed files as they were (the file is not renamed) and
    appends a record with the new name "-", the status "Informações não
    encontradas", "N/A" for each such field and the extracted value for
    the other; and whenever [processar_zip] returns, that record is the
    one returned for the file and no entry of the archive holds the
    file's content. *)
Theorem campos_ausentes_nao_renomeia (temp_path : area)
  (l1 l2 : list caminho) (p : caminho) (i : info) (ms0 : list mensagem) :
  rglob_pdf temp_path = l1 ++ p :: l2 ->
  extrair_info_comprovante (temp (laco (inicial temp_path) l1)) p = (i, ms0) ->
  truthy (data_de i) = false \/ truthy (destinatario_de i) = false ->
  temp (passo (laco (inicial temp_path) l1) p) =
    temp (laco (inicial temp_path) l1)
  /\ arquivos_renomeados (passo (laco (inicial temp_path) l1) p) =
       arquivos_renomeados (laco (inicial temp_path) l1)
  /\ exists r,
       resultados (passo (laco (inicial temp_path) l1) p) =
         resultados (laco (inicial temp_path) l1) ++ [r]
       /\ original r = name p
       /\ novo_nome r = py "-"
       /\ estado_final r = NaoEncontradas
       /\ (truthy (data_de i) = false -> data r = py "N/A")
       /\ (truthy (destinatario_de i) = false -> destinatario r = py "N/A")
       /\ (truthy (data_de i) = true -> data r = valor (data_de i))
       /\ (truthy (destinatario_de i) = true ->
           destinatario r = valor (destinatario_de i))
       /\ forall zip_output res ms,
            processar_zip temp_path = (Retorna zip_output res, ms) ->
            exists z antes depois,
              zip_output = Some z
              /\ res = antes ++ r :: depois
              /\ List.length antes = List.length l1
              /\ (forall c nm,
                    ler (temp (laco (inicial temp_path) l1)) p
                      = Some (Arquivo c) ->
                    ~ In (nm, Arquivo c) z).
Proof.
  intros El Ei Hnone.
  assert (Ht : truthy (data_de i) && truthy (destinatario_de i) = false).
  { destruct Hnone as [-> | ->]; [reflexivity | apply andb_false_r]. }
  pose proof (passo_campos_ausentes _ p i ms0 Ei Ht) as Hp.
  rewrite Hp; split; [reflexivity|].
  split; [simpl; apply app_nil_r|].
  eexists; split; [reflexivity|].
  cbn [original novo_nome estado_final data destinatario]; unfold py_or.
  repeat split; try (intros ->; reflexivity).
  intros out res ms H.
  destruct (processar_zip_registro _ _ _ _ _ _ _ _ _ _ _ El Hp H)
    as (z & depois & -> & -> & La & _ & _ & _ & Hz).
  exists z, (resultados (laco (inicial temp_path) l1)), depois.
  repeat split; auto.
  intros c nm Hc Hin.
  rewrite Forall_forall in Hz; destruct (Hz _ Hin) as (c' & Ec & _ & Hd).
  cbn [fst snd] in *; injection Ec as <-.
  apply destino_info in Hd; destruct Hd as [Hd _].
  pose proof (extrair_info_comprovante_ler
                (temp (laco (inicial temp_path) l1)) p) as Hl.
  rewrite Ei, Hc in Hl; cbn [fst] in Hl; subst i; congruence.
Qed.

Lemma campos_ausentes_nao_renomeia_witness :
  exists r,
    original r = py "v.pdf"
    /\ novo_nome r = py "-"
    /\ estado_final r = NaoEncontradas
    /\ data r = py "22-12-2025"
    /\ destinatario r = py "N/A"
    /\ exists z antes depois ms,
         processar_zip area_beneficiario_vazio =
           (Retorna (Some z) (antes ++ r :: depois), ms)
         /\ List.length antes = 1%nat.
Proof.
  destruct (campos_ausentes_nao_renomeia area_beneficiario_vazio
              [[py "a.pdf"]] [[py "b.pdf"]] [py "v.pdf"]
              (Some (py "22-12-2025"), Some [], Some Boleto) [])
    as (_ & _ & r & _ & H1 & H2 & H3 & _ & H5 & H6 & _ & Hz).
  - vm_compute; reflexivity.
  - vm_compute; reflexivity.
  - right; reflexivity.
  - exists r; repeat split; auto.
    destruct (processar_zip area_beneficiario_vazio) as [[e | out res] ms]
      eqn:Ep; [vm_compute in Ep; discriminate Ep|].
    destruct (Hz out res ms eq_refl) as (z & antes & depois & -> & -> & La & _).
    exists z, antes, depois, ms; auto.
Defined.

(** C5. Take the PDF processed after the files [l1] of a batch.  When its
    first page cannot be read, [extrair_info_comprovante] shows the error
    and returns [None] three times; the batch goes on: the file gets its
    own record, and the later files get the records, the directory the
    content and the packing the outcome (the same entries, or the same
    exception) that the batch without this file would give them. *)
Theorem falha_de_leitura_isolada (temp_path : area) (l1 l2 : list caminho)
  (p : caminho) (ex : excecao) :
  rglob_pdf temp_path = l1 ++ p :: l2 ->
  primeira_pagina (temp (laco (inicial temp_path) l1)) p = inl ex ->
  extrair_info_comprovante (temp (laco (inicial temp_path) l1)) p =
    ((None, None, None), [StError ex])
  /\ exists depois,
       resultados (laco (inicial temp_path) (l1 ++ p :: l2)) =
         resultados (laco (inicial temp_path) l1)
         ++ registro_ilegivel p :: depois
       /\ resultados (laco (inicial temp_path) (l1 ++ l2)) =
            resultados (laco (inicial temp_path) l1) ++ depois
       /\ List.length depois = List.length l2
       /\ In (StError ex)
            (mensagens (laco (inicial temp_path) (l1 ++ p :: l2)))
       /\ temp (laco (inicial temp_path) (l1 ++ p :: l2)) =
            temp (laco (inicial temp_path) (l1 ++ l2))
       /\ arquivos_renomeados (laco (inicial temp_path) (l1 ++ p :: l2)) =
            arquivos_renomeados (laco (inicial temp_path) (l1 ++ l2))
       /\ (forall e, fst (processar_zip temp_path) = Levanta e <->
                     empacotar (temp (laco (inicial temp_path) (l1 ++ l2)))
                       (arquivos_renomeados
                          (laco (inicial temp_path) (l1 ++ l2))) = inl e)
       /\ (forall zip_output res ms,
             processar_zip temp_path = (Retorna zip_output res, ms) ->
             exists z,
               zip_output = Some z
               /\ res = resultados (laco (inicial temp_path) l1)
                        ++ registro_ilegivel p :: depois
               /\ In (StError ex) ms
               /\ empacotar (temp (laco (inicial temp_path) (l1 ++ l2)))
                    (arquivos_renomeados
                       (laco (inicial temp_path) (l1 ++ l2))) = inr z).
Proof.
  intros El Hex.
  pose proof (extrair_info_comprovante_erro _ _ _ Hex) as Ei.
  split; [exact Ei|].
  assert (Hne : rglob_pdf temp_path <> [])
    by (rewrite El; destruct l1; discriminate).
  pose proof (processar_zip_casos temp_path Hne) as Hcasos.
  rewrite El in Hcasos.
  pose proof (laco_empacotar_casos temp_path (l1 ++ l2)) as Hsem.
  set (e1 := laco (inicial temp_path) l1) in *.
  assert (Hp : passo e1 p =
               acrescenta e1 (temp e1) [] [registro_ilegivel p] [StError ex]).
  { rewrite (passo_campos_ausentes e1 p _ _ Ei) by reflexivity; reflexivity. }
  destruct (laco_frame l2 (passo e1 p) e1)
    as (a2 & n2 & rs & ms2 & E2 & E2' & L2).
  { rewrite Hp; reflexivity. }
  assert (Ecom : laco (inicial temp_path) (l1 ++ p :: l2) =
                 acrescenta e1 a2 n2 (registro_ilegivel p :: rs)
                   (StError ex :: ms2)).
  { change (l1 ++ p :: l2) with (l1 ++ [p] ++ l2).
    rewrite !laco_app; fold e1.
    change (laco (laco e1 [p]) l2) with (laco (passo e1 p) l2).
    rewrite E2, Hp, acrescenta_acrescenta; reflexivity. }
  assert (Esem : laco (inicial temp_path) (l1 ++ l2) =
                 acrescenta e1 a2 n2 rs ms2).
  { rewrite laco_app; fold e1; exact E2'. }
  rewrite Ecom in *; rewrite Esem in *.
  cbn [acrescenta temp arquivos_renomeados resultados mensagens] in *.
  assert (En : nome_nao_codificavel
                 (resultados e1 ++ registro_ilegivel p :: rs) =
               nome_nao_codificavel (resultados e1 ++ rs)).
  { unfold nome_nao_codificavel; rewrite !existsb_app; reflexivity. }
  rewrite En in Hcasos.
  assert (Hin : In (StError ex) (mensagens e1 ++ StError ex :: ms2))
    by (apply in_or_app; right; left; reflexivity).
  exists rs.
  split; [reflexivity|]. split; [reflexivity|]. split; [exact L2|].
  split; [exact Hin|]. split; [reflexivity|]. split; [reflexivity|].
  destruct (nome_nao_codificavel (resultados e1 ++ rs)).
  - split.
    + intros e; rewrite Hcasos, Hsem; cbn [fst]; split; congruence.
    + intros out res ms H; rewrite Hcasos in H; discriminate.
  - destruct Hcasos as (z & Ez & Hpz); split.
    + intros e; rewrite Hpz, Ez; cbn [fst]; split; discriminate.
    + intros out res ms H; rewrite Hpz in H; injection H as <- <- <-.
      exists z; auto.
Qed.

Lemma falha_de_leitura_isolada_witness :
  extrair_info_comprovante
    (temp (laco (inicial area_mista) [[py "a.pdf"]])) [py "c.pdf"] =
    ((None, None, None), [StError PdfError])
  /\ exists depois,
       resultados (laco (inicial area_mista)
                     ([[py "a.pdf"]] ++ [py "c.pdf"]
                      :: [[py "docs"; py "notas.pdf"]; [py "b.pdf"]])) =
         resultados (laco (inicial area_mista) [[py "a.pdf"]])
         ++ registro_ilegivel [py "c.pdf"] :: depois
       /\ List.length depois = 2%nat.
Proof.
  destruct (falha_de_leitura_isolada area_mista [[py "a.pdf"]]
              [[py "docs"; py "notas.pdf"]; [py "b.pdf"]] [py "c.pdf"] PdfError)
    as (H1 & depois & H2 & _ & L & _).
  - vm_compute; reflexivity.
  - vm_compute; reflexivity.
  - split; [exact H1|]. exists depois; auto.
Defined.

(** ** Two receipts with the same date and payee *)

(** Every successful renaming adds an entry of its own to the archive:
    the entry names are the new names of the records that succeeded, one
    for one and in order. *)
Lemma processar_zip_entradas (temp_path : area) (z : zip)
  (res : list registro) (ms : list mensagem) :
  processar_zip temp_path = (Retorna (Some z) res, ms) ->
  map fst z = map novo_nome (filter sucesso res).
Proof.
  intros H.
  destruct (processar_zip_retorna_inv _ _ _ _ H)
    as [(_ & E & _) | (_ & _ & _ & z' & E & _ & Hn & _)];
    [discriminate|].
  injection E as <-; exact Hn.
Qed.

(** C1. The two receipts of [area_colisao] both get the name
    "19-12-2025 - Jane Doe.pdf"; in the directory the second replaces the
    first, but the archive returned holds two entries of that name, each
    with the content of the receipt processed last. *)
Theorem colisao_duas_entradas :
  destino jane_1 = Some (py "19-12-2025 - Jane Doe.pdf")
  /\ destino jane_2 = Some (py "19-12-2025 - Jane Doe.pdf")
  /\ jane_1 <> jane_2
  /\ processar_zip area_colisao =
       (Retorna
          (Some [(py "19-12-2025 - Jane Doe.pdf", Arquivo jane_2);
                 (py "19-12-2025 - Jane Doe.pdf", Arquivo jane_2)])
          [{| original := py "a.pdf";
              novo_nome := py "19-12-2025 - Jane Doe.pdf";
              estado_final := Sucesso; tipo_texto := py "PIX";
              data := py "19-12-2025"; destinatario := py "Jane Doe" |};
           {| original := py "b.pdf";
              novo_nome := py "19-12-2025 - Jane Doe.pdf";
              estado_final := Sucesso; tipo_texto := py "PIX";
              data := py "19-12-2025"; destinatario := py "Jane Doe" |}],
        []).
Proof.
  repeat split; try (vm_compute; reflexivity).
  vm_compute; discriminate.
Qed.

(** When the receipt processed last is already stored under the common
    name, the first renaming replaces it before it is read: both entries
    hold the content of the receipt processed first. *)
Example colisao_alvo_existente :
  fst (processar_zip area_colisao_alvo) =
    Retorna
      (Some [(py "19-12-2025 - Jane Doe.pdf", Arquivo jane_1);
             (py "19-12-2025 - Jane Doe.pdf", Arquivo jane_1)])
      [{| original := py "a.pdf";
          novo_nome := py "19-12-2025 - Jane Doe.pdf";
          estado_final := Sucesso; tipo_texto := py "PIX";
          data := py "19-12-2025"; destinatario := py "Jane Doe" |};
       {| original := py "19-12-2025 - Jane Doe.pdf";
          novo_nome := py "19-12-2025 - Jane Doe.pdf";
          estado_final := Sucesso; tipo_texto := py "PIX";
          data := py "19-12-2025"; destinatario := py "Jane Doe" |}].
Proof. vm_compute; reflexivity. Qed.

(** ** A payee that sanitises to the empty string *)

(** The claim fails where a folder already has the target name: the
    payee "??" is not empty and sanitises to the empty string, a date is
    present, yet the file is not renamed and its record reports the
    failed renaming. *)
Lemma nome_vazio_pasta_contraexemplo :
  info_de (Pdf [texto_sem_nome]) =
    (Some (py "19-12-2025"), Some (py "??"), Some PIX)
  /\ py "??" <> []
  /\ limpar_nome_arquivo (py "??") = []
  /\ processar_zip area_pasta =
       (Retorna (Some [])
          [registro_ilegivel [py "19-12-2025 - .pdf"];
           {| original := py "x.pdf";
              novo_nome := py "-";
              estado_final := ErroAoRenomear IsADirectoryError;
              tipo_texto := py "PIX";
              data := py "19-12-2025"; destinatario := [] |}],
        [StError IsADirectoryError]).
Proof.
  repeat split; try (vm_compute; reflexivity).
  vm_compute; discriminate.
Qed.

(** C10 (amended). Take the PDF processed after the files [l1] of a
    batch.  When its text yields a date and a non-empty payee that
    sanitises to the empty string, and the directory holds no folder
    named "{date} - .pdf", the file is renamed to "{date} - .pdf": the
    directory then holds it under that name, the name joins the files to
    pack, and its record has that new name, the status "Sucesso" and the
    empty string as payee; whenever [processar_zip] returns, that record
    is the one returned for the file and the archive holds an entry of
    that name. *)
Theorem nome_vazio_renomeia (temp_path : area) (l1 l2 : list caminho)
  (p : caminho) (c : pdf) (d n : str) (tp : option tipo) :
  rglob_pdf temp_path = l1 ++ p :: l2 ->
  ler (temp (laco (inicial temp_path) l1)) p = Some (Arquivo c) ->
  info_de c = (Some d, Some n, tp) ->
  n <> [] ->
  limpar_nome_arquivo n = [] ->
  ler (temp (laco (inicial temp_path) l1)) [d ++ py " - .pdf"]
    <> Some Diretorio ->
  ler (temp (passo (laco (inicial temp_path) l1) p)) [d ++ py " - .pdf"] =
    Some (Arquivo c)
  /\ arquivos_renomeados (passo (laco (inicial temp_path) l1) p) =
       arquivos_renomeados (laco (inicial temp_path) l1)
       ++ [[d ++ py " - .pdf"]]
  /\ resultados (passo (laco (inicial temp_path) l1) p) =
       resultados (laco (inicial temp_path) l1)
       ++ [{| original := name p;
              novo_nome := d ++ py " - .pdf";
              estado_final := Sucesso;
              tipo_texto := tipo_or_desconhecido tp;
              data := d;
              destinatario := [] |}]
  /\ forall zip_output res ms,
       processar_zip temp_path = (Retorna zip_output res, ms) ->
       exists z antes depois,
         zip_output = Some z
         /\ res = antes ++
                  {| original := name p;
                     novo_nome := d ++ py " - .pdf";
                     estado_final := Sucesso;
                     tipo_texto := tipo_or_desconhecido tp;
                     data := d;
                     destinatario := [] |} :: depois
         /\ List.length antes = List.length l1
         /\ exists x, In (d ++ py " - .pdf", x) z.
Proof.
  intros El Hc Hi Hn Hl Hdir.
  set (e1 := laco (inicial temp_path) l1) in *.
  assert (Hd : formato_data d = true).
  { apply (info_de_data c); rewrite Hi; reflexivity. }
  assert (Hd0 : d <> []) by (intros ->; discriminate).
  assert (Enome : formatar_nome d [] = d ++ py " - .pdf") by reflexivity.
  destruct (nome_so_data_aceito d Hd) as (V0 & V1 & V2).
  rewrite Enome in V0, V1, V2.
  pose proof (rename_arquivo (temp e1) p [d ++ py " - .pdf"] c
                Hc V0 V1 V2 Hdir) as Hr.
  pose proof (extrair_info_comprovante_ler (temp e1) p) as Hinfo.
  rewrite Hc, Hi in Hinfo.
  assert (Hp : passo e1 p =
               acrescenta e1
                 (gravar (remover (temp e1) p) [d ++ py " - .pdf"] (Arquivo c))
                 [[d ++ py " - .pdf"]]
                 [{| original := name p;
                     novo_nome := d ++ py " - .pdf";
                     estado_final := Sucesso;
                     tipo_texto := tipo_or_desconhecido tp;
                     data := d;
                     destinatario := [] |}]
                 (snd (extrair_info_comprovante (temp e1) p))).
  { unfold passo.
    destruct (extrair_info_comprovante (temp e1) p) as [i ms0].
    cbn [fst snd] in *; subst i; cbn [valor].
    replace (truthy (Some d) && truthy (Some n)) with true
      by (destruct d, n; try contradiction; reflexivity).
    rewrite Hl, Enome.
    match goal with
    | |- context [rename ?a ?b ?q] =>
        replace (rename a b q)
          with (@inr excecao area
                  (gravar (remover (temp e1) p) [d ++ py " - .pdf"]
                     (Arquivo c)))
          by (symmetry; exact Hr)
    end.
    reflexivity. }
  split; [rewrite Hp; cbn [acrescenta temp]; apply ler_gravar_eq|].
  split; [rewrite Hp; reflexivity|].
  split; [rewrite Hp; reflexivity|].
  intros out res ms H.
  destruct (processar_zip_registro _ _ _ _ _ _ _ _ _ _ _ El Hp H)
    as (z & depois & -> & -> & La & _ & _ & Hnm & _).
  exists z, (resultados e1), depois; repeat split; auto.
  rewrite filter_app, map_app in Hnm.
  cbn [filter sucesso estado_final map novo_nome] in Hnm.
  assert (Hin : In (d ++ py " - .pdf") (map fst z))
    by (rewrite Hnm; apply in_or_app; right; left; reflexivity).
  apply in_map_iff in Hin; destruct Hin as ([nm0 x] & E & Hin).
  cbn [fst] in E; subst nm0; eauto.
Qed.

Lemma nome_vazio_renomeia_witness :
  ler (temp (passo (inicial [([py "recibos"], Diretorio);
                             ([py "recibos"; py "x.pdf"],
                              Arquivo (Pdf [texto_sem_nome]))])
               [py "recibos"; py "x.pdf"]))
    [py "19-12-2025 - .pdf"] = Some (Arquivo (Pdf [texto_sem_nome]))
  /\ exists z,
       processar_zip [([py "recibos"], Diretorio);
                      ([py "recibos"; py "x.pdf"],
                       Arquivo (Pdf [texto_sem_nome]))] =
         (Retorna (Some z)
            [{| original := py "x.pdf";
                novo_nome := py "19-12-2025 - .pdf";
                estado_final := Sucesso;
                tipo_texto := py "PIX";
                data := py "19-12-2025";
                destinatario := [] |}], [])
       /\ exists x, In (py "19-12-2025 - .pdf", x) z.
Proof.
  destruct (nome_vazio_renomeia
              [([py "recibos"], Diretorio);
               ([py "recibos"; py "x.pdf"], Arquivo (Pdf [texto_sem_nome]))]
              [] [] [py "recibos"; py "x.pdf"] (Pdf [texto_sem_nome])
              (py "19-12-2025") (py "??") (Some PIX))
    as (H1 & _ & _ & Hz).
  - vm_compute; reflexivity.
  - vm_compute; reflexivity.
  - vm_compute; reflexivity.
  - vm_compute; discriminate.
  - vm_compute; reflexivity.
  - vm_compute; discriminate.
  - split; [exact H1|].
    destruct (processar_zip
                [([py "recibos"], Diretorio);
                 ([py "recibos"; py "x.pdf"], Arquivo (Pdf [texto_sem_nome]))])
      as [[e | out res] ms] eqn:Ep; [vm_compute in Ep; discriminate Ep|].
    destruct (Hz out res ms eq_refl) as (z & antes & depois & -> & _ & _ & Hx).
    exists z; split; [|exact Hx].
    revert Ep; vm_compute; intros [= <- <- <-]; reflexivity.
Defined.

Lemma processar_zip_entradas_witness :
  map fst [(py "19-12-2025 - Jane Doe.pdf", Arquivo jane_2);
           (py "19-12-2025 - Jane Doe.pdf", Arquivo jane_2)] =
  map novo_nome
    (filter sucesso
       [{| original := py "a.pdf";
           novo_nome := py "19-12-2025 - Jane Doe.pdf";
           estado_final := Sucesso; tipo_texto := py "PIX";
           data := py "19-12-2025"; destinatario := py "Jane Doe" |};
        {| original := py "b.pdf";
           novo_nome := py "19-12-2025 - Jane Doe.pdf";
           estado_final := Sucesso; tipo_texto := py "PIX";
           data := py "19-12-2025"; destinatario := py "Jane Doe" |}]).
Proof.
  apply (processar_zip_entradas area_colisao _ _ []).
  vm_compute; reflexivity.
Defined.

(** A date returned for a page text is ten characters long, DD-MM-YYYY
    with decimal digits, and holds no slash. *)
Theorem data_extraida_formato (texto d : str) :
  data_de (extrair_info_texto texto) = Some d ->
  formato_data d = true /\ List.length d = 10%nat /\ ~ In SLASH d.
Proof.
  intros H; apply extrair_info_texto_data in H.
  split; [exact H|]. split; [apply formato_data_length; exact H|].
  intros Hin; destruct (formato_data_chars d SLASH H Hin) as [E | E].
  - discriminate.
  - apply isdecimal_faixa in E; unfold SLASH in E; lia.
Qed.

Lemma data_extraida_formato_witness :
  formato_data (py "19-12-2025") = true
  /\ List.length (py "19-12-2025") = 10%nat
  /\ ~ In SLASH (py "19-12-2025").
Proof.
  apply (data_extraida_formato texto_pix).
  vm_compute; reflexivity.
Defined.

Lemma destino_sem_barra_witness : ~ In SLASH (py "19-12-2025 - Jane Doe.pdf").
Proof.
  apply (destino_sem_barra jane_1).
  vm_compute; reflexivity.
Defined.

(* ================================================================== *)
(** * Further properties *)

(** ** limpar_nome_arquivo *)

Lemma lstrip_nil_iff (s : str) :
  lstrip s = [] <-> Forall (fun c => isspace c = true) s.
Proof.
  induction s as [|c s IH]; simpl.
  - split; [constructor | reflexivity].
  - destruct (isspace c) eqn:Hc.
    + rewrite IH; split; [constructor; assumption|].
      intros H; inversion H; assumption.
    + split; [discriminate|].
      intros H; inversion H; congruence.
Qed.

Lemma join_nil_iff (ws : list str) :
  Forall palavra ws -> (join [SPACE] ws = [] <-> ws = []).
Proof.
  intros H; split; [|intros ->; reflexivity].
  destruct H as [|w ws Hw _]; [reflexivity|].
  destruct (join_head w ws Hw) as (y & r & E & _); rewrite E; discriminate.
Qed.

(** The sanitised name is empty exactly when the name holds nothing but
    removed characters and blanks. *)
Theorem limpar_nome_arquivo_vazio (nome : str) :
  limpar_nome_arquivo nome = [] <->
  forall c, In c nome -> invalido c = true \/ isspace c = true.
Proof.
  unfold limpar_nome_arquivo.
  rewrite join_nil_iff by apply split_palavras.
  unfold split.
  destruct (join_split_from (re_sub_class invalido nome)) as (_ & _ & ->).
  rewrite lstrip_nil_iff, Forall_forall; split.
  - intros H c Hc; destruct (invalido c) eqn:Hi; [auto|].
    right; apply H, In_re_sub_class; auto.
  - intros H c Hc; apply In_re_sub_class in Hc; destruct Hc as [Hc Hi].
    destruct (H c Hc); congruence.
Qed.

Lemma filter_lstrip (s : str) :
  filter (fun c => negb (isspace c)) (lstrip s) =
  filter (fun c => negb (isspace c)) s.
Proof.
  induction s as [|c s IH]; simpl; [reflexivity|].
  destruct (isspace c) eqn:Hc; simpl; [exact IH|].
  rewrite Hc; reflexivity.
Qed.

Lemma filter_colapsar (s : str) :
  filter (fun c => negb (isspace c)) (colapsar s) =
  filter (fun c => negb (isspace c)) s.
Proof.
  induction s as [|c s IH]; [reflexivity|].
  destruct s as [|d s].
  - simpl; destruct (isspace c) eqn:Hc; simpl; [|rewrite Hc]; reflexivity.
  - rewrite colapsar_cons2.
    destruct (isspace c) eqn:Hc, (isspace d) eqn:Hd;
      cbn [filter]; rewrite ?Hc, ?isspace_SPACE; cbn [negb];
      rewrite IH; reflexivity.
Qed.

Lemma length_lstrip (s : str) : (List.length (lstrip s) <= List.length s)%nat.
Proof.
  induction s as [|c s IH]; simpl; [lia|].
  destruct (isspace c); simpl; lia.
Qed.

Lemma length_colapsar (s : str) :
  (List.length (colapsar s) <= List.length s)%nat.
Proof.
  induction s as [|c s IH]; [simpl; lia|].
  destruct s as [|d s].
  - simpl; destruct (isspace c); simpl; lia.
  - rewrite colapsar_cons2.
    destruct (isspace c), (isspace d); cbn [List.length] in *; lia.
Qed.

(** Sanitising keeps every character that is neither removed nor blank,
    in the order of the input, adds none, and never makes the name longer. *)
Theorem limpar_nome_arquivo_conserva (nome : str) :
  filter (fun c => negb (isspace c)) (limpar_nome_arquivo nome) =
    filter (fun c => negb (invalido c) && negb (isspace c)) nome
  /\ (List.length (limpar_nome_arquivo nome) <= List.length nome)%nat.
Proof.
  rewrite limpar_nome_arquivo_normaliza; unfold normalizar_espacos; split.
  - rewrite filter_colapsar, filter_lstrip; unfold re_sub_class.
    induction nome as [|c s IH]; simpl; [reflexivity|].
    destruct (invalido c); simpl; [exact IH|].
    destruct (isspace c); simpl; rewrite IH; reflexivity.
  - etransitivity; [apply length_colapsar|].
    etransitivity; [apply length_lstrip|].
    unfold re_sub_class; apply filter_length_le.
Qed.

Lemma colapsar_id (x : str) :
  (forall a c b, x = a ++ c :: b -> isspace c = true ->
     c = SPACE /\ exists y b', b = y :: b' /\ isspace y = false) ->
  colapsar x = x.
Proof.
  induction x as [|c x IH]; intros H; [reflexivity|].
  assert (Hx : colapsar x = x).
  { apply IH; intros a c0 b E Hc0.
    apply (H (c :: a) c0 b); [rewrite E; reflexivity | exact Hc0]. }
  destruct (isspace c) eqn:Hc.
  - destruct (H [] c x eq_refl Hc) as (-> & y & b' & -> & Hy).
    rewrite colapsar_cons2, isspace_SPACE, Hy, Hx; reflexivity.
  - rewrite colapsar_nonblank, Hx by assumption; reflexivity.
Qed.

(** The names that sanitising leaves as they are: those without removed
    characters in which every blank is one space between two non-blank
    characters. *)
Theorem limpar_nome_arquivo_ponto_fixo (x : str) :
  limpar_nome_arquivo x = x <->
  (forall c, In c x -> invalido c = false) /\ espacos_simples x.
Proof.
  split.
  - intros E; split.
    + intros c Hc; rewrite <- E in Hc.
      apply limpar_nome_arquivo_valido in Hc; exact Hc.
    + rewrite <- E; apply join_espacos_simples, split_palavras.
  - intros [Hv Hs].
    rewrite limpar_nome_arquivo_normaliza, re_sub_class_id by exact Hv.
    unfold normalizar_espacos; rewrite espacos_simples_lstrip by exact Hs.
    apply colapsar_id; intros a c b E Hc.
    destruct (Hs a c b E Hc) as (Ec & _ & Hb); auto.
Qed.

(** ** extrair_info_comprovante: the cascade *)

Lemma contains_false_iff (s sub : str) :
  contains s sub = false <-> ~ ocorre sub s.
Proof.
  rewrite <- contains_iff; destruct (contains s sub); split;
    congruence || (intros H; exfalso; auto).
Qed.

(** The document type as a function of the markers in the page text: TED
    only without a Boleto marker, PIX only without a Boleto marker and
    without the TED pair, no type exactly when no marker is there, and
    then no date and no payee either. *)
Theorem tipo_pelos_marcadores (texto : str) :
  (tipo_de (extrair_info_texto texto) = Some TED <->
     ~ ocorre (py "Boleto") texto /\ ~ ocorre (py "Data de débito:") texto
     /\ ocorre (py "TED") texto /\ ocorre (py "Transferência") texto)
  /\ (tipo_de (extrair_info_texto texto) = Some PIX <->
        ~ ocorre (py "Boleto") texto /\ ~ ocorre (py "Data de débito:") texto
        /\ ~ (ocorre (py "TED") texto /\ ocorre (py "Transferência") texto)
        /\ ocorre (py "PIX") texto)
  /\ (tipo_de (extrair_info_texto texto) = None <->
        ~ ocorre (py "Boleto") texto /\ ~ ocorre (py "Data de débito:") texto
        /\ ~ (ocorre (py "TED") texto /\ ocorre (py "Transferência") texto)
        /\ ~ ocorre (py "PIX") texto)
  /\ (tipo_de (extrair_info_texto texto) = None ->
        extrair_info_texto texto = (None, None, None)).
Proof.
  unfold extrair_info_texto.
  rewrite <- !contains_false_iff, <- !contains_iff.
  destruct (contains texto (py "Boleto")),
    (contains texto (py "Data de débito:")),
    (contains texto (py "TED")),
    (contains texto (py "Transferência")),
    (contains texto (py "PIX"));
    cbn [orb andb tipo_de snd];
    repeat split; try discriminate; try tauto; try congruence;
    intuition congruence.
Qed.

Lemma info_de_tipo (c : pdf) :
  truthy (data_de (info_de c)) = true -> tipo_de (info_de c) <> None.
Proof.
  destruct c as [|[|t ts]]; cbn [info_de data_de fst truthy]; try discriminate.
  unfold extrair_info_texto.
  repeat match goal with
         | |- context [if ?b then _ else _] => destruct b
         end; cbn [data_de tipo_de fst snd truthy]; discriminate.
Qed.

(** ** processar_zip: the records *)

Lemma passo_original (e : estado) (p : caminho) :
  map original (resultados (passo e p)) =
  map original (resultados e) ++ [name p].
Proof.
  pose proof (passo_casos e p) as H.
  destruct (extrair_info_comprovante (temp e) p) as [i ms].
  destruct H as [(c & nm & a' & _ & _ & _ & ->)
                | [(c & nm & ex & _ & _ & _ & ->) | [_ ->]]];
    simpl; rewrite map_app; reflexivity.
Qed.

Lemma laco_original (l : list caminho) (e : estado) :
  map original (resultados (laco e l)) =
  map original (resultados e) ++ map name l.
Proof.
  revert e; induction l as [|p l IH]; intros e.
  - simpl; rewrite app_nil_r; reflexivity.
  - change (laco e (p :: l)) with (laco (passo e p) l).
    rewrite IH, passo_original, <- app_assoc; reflexivity.
Qed.

(** Whenever [processar_zip] returns, every PDF found has exactly one
    record, and the records come in the order in which the files were
    found, each under the file's own name. *)
Theorem registros_na_ordem (temp_path : area) (zip_output : option zip)
  (res : list registro) (ms : list mensagem) :
  processar_zip temp_path = (Retorna zip_output res, ms) ->
  map original res = map name (rglob_pdf temp_path).
Proof.
  intros H.
  destruct (processar_zip_retorna_inv _ _ _ _ H)
    as [(El & _ & -> & _) | (_ & -> & _)].
  - rewrite El; reflexivity.
  - apply (laco_original _ (inicial temp_path)).
Qed.

Lemma registros_na_ordem_witness :
  exists zip_output res ms,
    processar_zip area_mista = (Retorna zip_output res, ms)
    /\ map original res =
         [py "a.pdf"; py "c.pdf"; py "notas.pdf"; py "b.pdf"].
Proof.
  destruct (processar_zip area_mista) as [[e | out res] ms] eqn:E;
    [vm_compute in E; discriminate E|].
  exists out, res, ms; split; [reflexivity|].
  exact (registros_na_ordem area_mista out res ms E).
Defined.

Lemma tipo_or_desconhecido_In (t : option tipo) :
  In (tipo_or_desconhecido t)
     [py "Boleto"; py "TED"; py "PIX"; py "Desconhecido"].
Proof. destruct t as [[]|]; simpl; auto. Qed.

Lemma tipo_or_desconhecido_Some (t : option tipo) :
  t <> None -> tipo_or_desconhecido t <> py "Desconhecido".
Proof. destruct t as [[]|]; try contradiction; intros _; vm_compute; discriminate. Qed.

Lemma py_or_nao_vazio (o : option str) (d : str) : d <> [] -> py_or o d <> [].
Proof.
  intros Hd; unfold py_or; destruct o as [[|c s]|]; simpl; auto; discriminate.
Qed.

Lemma limpar_nome_arquivo_limpo (x : str) :
  limpar_nome_arquivo (limpar_nome_arquivo x) = limpar_nome_arquivo x.
Proof.
  unfold limpar_nome_arquivo at 1.
  rewrite re_sub_class_id by apply limpar_nome_arquivo_valido.
  unfold limpar_nome_arquivo; rewrite split_join by apply split_palavras.
  reflexivity.
Qed.

Lemma passo_coerente (e : estado) (p : caminho) :
  Forall registro_coerente (resultados e) ->
  Forall registro_coerente (resultados (passo e p)).
Proof.
  intros Inv; pose proof (passo_casos e p) as H.
  pose proof (extrair_info_comprovante_ler (temp e) p) as Hl.
  destruct (extrair_info_comprovante (temp e) p) as [i ms]; cbn [fst] in Hl.
  assert (Hcampos : forall c nm,
             ler (temp e) p = Some (Arquivo c) -> destino c = Some nm ->
             nm = formatar_nome (valor (data_de i))
                    (limpar_nome_arquivo (valor (destinatario_de i)))
             /\ formato_data (valor (data_de i)) = true
             /\ tipo_or_desconhecido (tipo_de i) <> py "Desconhecido").
  { intros c nm Hc Hd; rewrite Hc in Hl; subst i.
    apply destino_info in Hd; destruct Hd as [Ht ->].
    apply andb_true_iff in Ht; destruct Ht as [Ht _].
    split; [reflexivity|]; split.
    - destruct (data_de (info_de c)) as [d|] eqn:Ed; [|discriminate].
      apply (info_de_data c); exact Ed.
    - apply tipo_or_desconhecido_Some, info_de_tipo; exact Ht. }
  destruct H as [(c & nm & a' & Hc & Hd & _ & ->)
                | [(c & nm & ex & Hc & Hd & _ & ->) | [_ ->]]];
    simpl; apply Forall_app; split; auto; constructor; auto;
    (split; [apply tipo_or_desconhecido_In|]); cbn.
  - destruct (Hcampos c nm Hc Hd) as (E & Hf & Ht).
    repeat split; auto; apply limpar_nome_arquivo_limpo.
  - destruct (Hcampos c nm Hc Hd) as (E & Hf & Ht).
    repeat split; auto; apply limpar_nome_arquivo_limpo.
  - repeat split; apply py_or_nao_vazio; discriminate.
Qed.

Lemma laco_coerente (l : list caminho) (e : estado) :
  Forall registro_coerente (resultados e) ->
  Forall registro_coerente (resultados (laco e l)).
Proof.
  revert e; induction l as [|p l IH]; intros e H; [exact H|].
  apply IH, passo_coerente, H.
Qed.

(** Every record [processar_zip] returns is coherent: a succeeded record
    carries the name built from its own date and payee fields, a date of
    the shape DD-MM-YYYY, a payee that is already sanitised and a known
    document type; a record of a failed renaming carries "-" with the
    same kind of date, payee and type; a record of missing fields carries
    "-" and never an empty date or payee. *)
Theorem registros_coerentes (temp_path : area) (zip_output : option zip)
  (res : list registro) (ms : list mensagem) :
  processar_zip temp_path = (Retorna zip_output res, ms) ->
  Forall registro_coerente res.
Proof.
  intros H.
  destruct (processar_zip_retorna_inv _ _ _ _ H)
    as [(_ & _ & -> & _) | (_ & -> & _)].
  - constructor.
  - apply laco_coerente; constructor.
Qed.

Lemma registros_coerentes_witness :
  exists zip_output res ms,
    processar_zip area_mista = (Retorna zip_output res, ms)
    /\ List.length res = 4%nat
    /\ Forall registro_coerente res.
Proof.
  destruct (processar_zip area_mista) as [[e | out res] ms] eqn:E;
    [vm_compute in E; discriminate E|].
  exists out, res, ms; split; [reflexivity|]; split.
  - revert E; vm_compute; intros [= _ <- _]; reflexivity.
  - exact (registros_coerentes area_mista out res ms E).
Defined.

(** ** processar_zip: the archive *)

Lemma destino_pdf (c : pdf) (nm : str) :
  destino c = Some nm -> endswith nm (py ".pdf") = true.
Proof.
  intros H; apply destino_info in H; destruct H as [_ ->].
  unfold endswith, formatar_nome; apply startswith_iff.
  rewrite !app_assoc, rev_app_distr; eauto.
Qed.

(** Every entry of the archive [processar_zip] returns holds a regular
    file, is named as [processar_zip] names that very content, and has a
    name ending in ".pdf"; two entries with the same name hold the same
    content. *)
Theorem entradas_do_arquivo (temp_path : area) (z : zip)
  (res : list registro) (ms : list mensagem) :
  processar_zip temp_path = (Retorna (Some z) res, ms) ->
  (forall nm n, In (nm, n) z ->
     exists c, n = Arquivo c /\ destino c = Some nm
               /\ endswith nm (py ".pdf") = true)
  /\ (forall nm n n', In (nm, n) z -> In (nm, n') z -> n = n').
Proof.
  intros H.
  destruct (processar_zip_retorna_inv _ _ _ _ H)
    as [(_ & E & _) | (_ & _ & _ & z' & E & _ & _ & Hz)]; [discriminate E|].
  injection E as <-; rewrite Forall_forall in Hz; split.
  - intros nm n Hin; destruct (Hz _ Hin) as (c & Ec & _ & Hd).
    exists c; repeat split; auto; eapply destino_pdf; exact Hd.
  - intros nm n n' H1 H2.
    destruct (Hz _ H1) as (c & Ec & Hl & _).
    destruct (Hz _ H2) as (c' & Ec' & Hl' & _).
    cbn [fst snd] in *; congruence.
Qed.

Lemma entradas_do_arquivo_witness :
  exists z res ms,
    processar_zip area_mista = (Retorna (Some z) res, ms)
    /\ List.length z = 2%nat
    /\ (forall nm n, In (nm, n) z ->
          exists c, n = Arquivo c /\ destino c = Some nm
                    /\ endswith nm (py ".pdf") = true)
    /\ (forall nm n n', In (nm, n) z -> In (nm, n') z -> n = n').
Proof.
  destruct (processar_zip area_mista) as [[e | [z|] res] ms] eqn:E;
    [vm_compute in E; discriminate E | | vm_compute in E; discriminate E].
  exists z, res, ms; split; [reflexivity|]; split.
  - revert E; vm_compute; intros [= <- _ _]; reflexivity.
  - exact (entradas_do_arquivo area_mista z res ms E).
Defined.

(** ** main *)

Lemma filter_sucesso_length (res : list registro) :
  (List.length (filter sucesso res)
   + List.length (filter (fun r => negb (sucesso r)) res)
   = List.length res)%nat.
Proof.
  induction res as [|r res IH]; simpl; [reflexivity|].
  destruct (sucesso r); simpl; lia.
Qed.

(** Whenever [processar_zip] returns, the page shows results exactly when
    the upload held a PDF.  Then "Total de Arquivos" is the number of
    PDFs found, "Processados com Sucesso" is the number of entries in the
    archive offered for download, and "Erros/Avisos" is the number of
    records that did not succeed (never negative). *)
Theorem metricas_do_lote (temp_path : area) (zip_output : option zip)
  (res : list registro) (ms : list mensagem) :
  processar_zip temp_path = (Retorna zip_output res, ms) ->
  (mostra_resultados (Retorna zip_output res) = true <->
   rglob_pdf temp_path <> [])
  /\ forall z, zip_output = Some z ->
       metricas res =
         (Z.of_nat (List.length (rglob_pdf temp_path)),
          Z.of_nat (List.length z),
          Z.of_nat (List.length (filter (fun r => negb (sucesso r)) res))).
Proof.
  intros H.
  destruct (processar_zip_retorna_inv _ _ _ _ H)
    as [(El & -> & -> & _) | (Hne & Er & _ & z & -> & _ & Hn & _)].
  - rewrite El; split; [split; [discriminate | congruence] | discriminate].
  - pose proof (laco_resultados_length (rglob_pdf temp_path)
                  (inicial temp_path)) as L; simpl in L.
    rewrite <- Er in L.
    assert (Lz : List.length z = List.length (filter sucesso res))
      by (rewrite <- (length_map fst z), Hn; apply length_map).
    split.
    + split; [intros _; exact Hne|]; intros _.
      destruct res; [|reflexivity].
      destruct (rglob_pdf temp_path); [contradiction | discriminate].
    + intros z' [= <-]; unfold metricas; rewrite Lz, L.
      pose proof (filter_sucesso_length res) as Hs; rewrite L in Hs.
      repeat f_equal; lia.
Qed.

Lemma metricas_do_lote_witness :
  exists z res ms,
    processar_zip area_mista = (Retorna (Some z) res, ms)
    /\ mostra_resultados (Retorna (Some z) res) = true
    /\ List.length z = 2%nat
    /\ metricas res = (4, 2, 2)%Z.
Proof.
  destruct (processar_zip area_mista) as [[e | [z|] res] ms] eqn:E;
    [vm_compute in E; discriminate E | | vm_compute in E; discriminate E].
  destruct (metricas_do_lote area_mista (Some z) res ms E) as [Hm Hz].
  exists z, res, ms; split; [reflexivity|]; split; [|split].
  - apply Hm; vm_compute; discriminate.
  - revert E; vm_compute; intros [= <- _ _]; reflexivity.
  - revert E; vm_compute; intros [= _ <- _]; reflexivity.
Defined.

(** ** processar_zip: a renaming that fails *)

(** Take the PDF processed after the files [l1] of a batch.  When the
    renaming of this file raises, the file stays where it is, nothing is
    added to the files to pack, and its record has the new name "-", the
    status of a failed renaming with that exception, the extracted date
    and the sanitised payee; whenever [processar_zip] returns, that
    record is the one returned for the file. *)
Theorem falha_ao_renomear (temp_path : area) (l1 l2 : list caminho)
  (p : caminho) (c : pdf) (nm : str) (ex : excecao) :
  rglob_pdf temp_path = l1 ++ p :: l2 ->
  ler (temp (laco (inicial temp_path) l1)) p = Some (Arquivo c) ->
  destino c = Some nm ->
  rename (temp (laco (inicial temp_path) l1)) p [nm] = inl ex ->
  temp (passo (laco (inicial temp_path) l1) p) =
    temp (laco (inicial temp_path) l1)
  /\ arquivos_renomeados (passo (laco (inicial temp_path) l1) p) =
       arquivos_renomeados (laco (inicial temp_path) l1)
  /\ resultados (passo (laco (inicial temp_path) l1) p) =
       resultados (laco (inicial temp_path) l1)
       ++ [{| original := name p;
              novo_nome := py "-";
              estado_final := ErroAoRenomear ex;
              tipo_texto := tipo_or_desconhecido (tipo_de (info_de c));
              data := valor (data_de (info_de c));
              destinatario :=
                limpar_nome_arquivo (valor (destinatario_de (info_de c)))
           |}]
  /\ forall zip_output res ms,
       processar_zip temp_path = (Retorna zip_output res, ms) ->
       exists antes depois,
         res = antes ++
               {| original := name p;
                  novo_nome := py "-";
                  estado_final := ErroAoRenomear ex;
                  tipo_texto := tipo_or_desconhecido (tipo_de (info_de c));
                  data := valor (data_de (info_de c));
                  destinatario :=
                    limpar_nome_arquivo (valor (destinatario_de (info_de c)))
               |} :: depois
         /\ List.length antes = List.length l1.
Proof.
  intros El Hc Hd Hr.
  set (e1 := laco (inicial temp_path) l1) in *.
  pose proof (passo_casos e1 p) as H.
  pose proof (extrair_info_comprovante_ler (temp e1) p) as Hl.
  destruct (extrair_info_comprovante (temp e1) p) as [i ms0].
  cbn [fst] in Hl; rewrite Hc in Hl; subst i.
  assert (Hp : passo e1 p =
               acrescenta e1 (temp e1) []
                 [{| original := name p;
                     novo_nome := py "-";
                     estado_final := ErroAoRenomear ex;
                     tipo_texto := tipo_or_desconhecido (tipo_de (info_de c));
                     data := valor (data_de (info_de c));
                     destinatario :=
                       limpar_nome_arquivo
                         (valor (destinatario_de (info_de c))) |}] ms0).
  { destruct H as [(c' & nm' & a' & Hc' & Hd' & Hr' & _)
                  | [(c' & nm' & ex' & Hc' & Hd' & Hr' & Hp) | [Ht _]]].
    - assert (c' = c) by congruence; subst c'.
      assert (nm' = nm) by congruence; subst nm'; congruence.
    - assert (c' = c) by congruence; subst c'.
      assert (nm' = nm) by congruence; subst nm'.
      assert (ex' = ex) by congruence; subst ex'; exact Hp.
    - apply destino_info in Hd; destruct Hd; congruence. }
  split; [rewrite Hp; reflexivity|].
  split; [rewrite Hp; simpl; apply app_nil_r|].
  split; [rewrite Hp; reflexivity|].
  intros out res ms Hret.
  destruct (processar_zip_registro _ _ _ _ _ _ _ _ _ _ _ El Hp Hret)
    as (z & depois & _ & -> & La & _).
  exists (resultados e1), depois; auto.
Qed.

Lemma falha_ao_renomear_witness :
  ler (temp (passo (inicial area_nome_longo) [py "longo.pdf"]))
    [py "longo.pdf"] = Some (Arquivo (Pdf [texto_nome_longo]))
  /\ processar_zip area_nome_longo =
       (Retorna (Some [])
          [{| original := py "longo.pdf";
              novo_nome := py "-";
              estado_final := ErroAoRenomear FileNameTooLong;
              tipo_texto := py "PIX";
              data := py "19-12-2025";
              destinatario := repeat 65 300 |}], []).
Proof.
  destruct (falha_ao_renomear area_nome_longo [] [] [py "longo.pdf"]
              (Pdf [texto_nome_longo])
              (py "19-12-2025 - " ++ repeat 65 300 ++ py ".pdf")
              FileNameTooLong)
    as (Ht & _ & _ & _).
  - vm_compute; reflexivity.
  - vm_compute; reflexivity.
  - vm_compute; reflexivity.
  - vm_compute; reflexivity.
  - split; [|vm_compute; reflexivity].
    change (laco (inicial area_nome_longo) []) with (inicial area_nome_longo)
      in Ht.
    rewrite Ht; vm_compute; reflexivity.
Defined.

(** ** processar_zip on its own output *)

Lemma ler_In_NoDup (a : area) (p : caminho) (n : no) :
  NoDup (map fst a) -> In (p, n) a -> ler a p = Some n.
Proof.
  induction a as [|[q m] a IH]; simpl; [tauto|].
  intros Hnd [[= -> ->] | Hin].
  - rewrite caminho_eqb_refl; reflexivity.
  - inversion Hnd as [|? ? Hq Hnd']; subst.
    rewrite caminho_eqb_neq; [auto|].
    intros ->; apply Hq, in_map_iff; exists (p, n); auto.
Qed.

Lemma empacotar_ext (a b : area) (l : list caminho) :
  (forall q, ler a q = ler b q) -> empacotar a l = empacotar b l.
Proof.
  intros H; induction l as [|p l IH]; simpl; [reflexivity|].
  rewrite H, IH; reflexivity.
Qed.

Lemma extrair_info_comprovante_sem_erro (a : area) (p : caminho) (c : pdf) :
  ler a p = Some (Arquivo c) ->
  truthy (data_de (info_de c)) = true ->
  extrair_info_comprovante a p = (info_de c, []).
Proof.
  intros Hl Ht; unfold extrair_info_comprovante, primeira_pagina; rewrite Hl.
  destruct c as [|[|t ts]]; try discriminate; reflexivity.
Qed.

Lemma surrogate_qualquer_false (s : str) :
  existsb surrogate_qualquer s = false -> existsb surrogate s = false.
Proof.
  induction s as [|c s IH]; [reflexivity|]; cbn [existsb].
  rewrite !orb_false_iff; intros [H1 H2]; split; [|auto].
  unfold surrogate; unfold surrogate_qualquer in H1; rewrite H1; reflexivity.
Qed.

Lemma nome_aceito_rename (nm : str) :
  nome_aceito nm = true ->
  existsb (existsb (N.eqb 0)) [nm] = false
  /\ existsb (existsb surrogate) [nm] = false
  /\ existsb (fun x => NAME_MAX <? fs_length x) [nm] = false.
Proof.
  unfold nome_aceito; rewrite !andb_true_iff, !negb_true_iff.
  intros [[H0 H1] H2]; apply surrogate_qualquer_false in H1.
  cbn [existsb]; rewrite H0, H1, H2; auto.
Qed.

(** One iteration on a file that is stored under its own new name: the
    record succeeds with that name, and every path reads as before. *)
Lemma passo_ja_renomeado (e : estado) (nm : str) (c : pdf) :
  ler (temp e) [nm] = Some (Arquivo c) ->
  destino c = Some nm ->
  nome_aceito nm = true ->
  exists a' r,
    passo e [nm] = acrescenta e a' [[nm]] [r] []
    /\ (forall q, ler a' q = ler (temp e) q)
    /\ estado_final r = Sucesso /\ novo_nome r = nm /\ original r = nm.
Proof.
  intros Hc Hd Hn.
  destruct (nome_aceito_rename nm Hn) as (V0 & V1 & V2).
  assert (Hr : rename (temp e) [nm] [nm] =
               inr (gravar (remover (temp e) [nm]) [nm] (Arquivo c))).
  { apply rename_arquivo; auto; rewrite Hc; discriminate. }
  pose proof (destino_info c nm Hd) as [Ht Enm].
  assert (Ei : extrair_info_comprovante (temp e) [nm] = (info_de c, [])).
  { apply extrair_info_comprovante_sem_erro; [exact Hc|].
    apply andb_true_iff in Ht; tauto. }
  pose proof (passo_casos e [nm]) as H; rewrite Ei in H.
  destruct H as [(c' & nm' & a' & Hc' & Hd' & Hr' & Hp)
                | [(c' & nm' & ex & Hc' & Hd' & Hr' & _) | [Ht' _]]].
  - assert (c' = c) by congruence; subst c'.
    assert (nm' = nm) by congruence; subst nm'.
    exists a'; eexists; split; [exact Hp|].
    split; [|repeat split; reflexivity].
    assert (a' = gravar (remover (temp e) [nm]) [nm] (Arquivo c))
      by congruence; subst a'.
    intros q; destruct (list_eq_dec (list_eq_dec N.eq_dec) [nm] q) as [<- | Hq].
    + rewrite ler_gravar_eq, Hc; reflexivity.
    + rewrite ler_gravar_neq, ler_remover_neq by assumption; reflexivity.
  - assert (c' = c) by congruence; subst c'.
    assert (nm' = nm) by congruence; subst nm'; congruence.
  - congruence.
Qed.

Lemma laco_ja_renomeada (a : area) (l : area) (e : estado) :
  NoDup (map fst a) ->
  (forall x, In x l -> In x a) ->
  Forall (fun x => exists nm c,
            x = ([nm], Arquivo c) /\ destino c = Some nm
            /\ nome_aceito nm = true) l ->
  (forall q, ler (temp e) q = ler a q) ->
  exists a' rs,
    laco e (map fst l) = acrescenta e a' (map fst l) rs []
    /\ (forall q, ler a' q = ler a q)
    /\ Forall (fun r => estado_final r = Sucesso /\ novo_nome r = original r) rs
    /\ map original rs = map name (map fst l).
Proof.
  intros Hnd; revert e; induction l as [|x l IH]; intros e Hsub Hl He.
  - exists (temp e), []; simpl; rewrite acrescenta_nada; auto.
  - inversion Hl as [|? ? (nm & c & -> & Hd & Hn) Hl']; subst.
    assert (Hc : ler (temp e) [nm] = Some (Arquivo c)).
    { rewrite He; apply ler_In_NoDup; [exact Hnd|].
      apply Hsub; left; reflexivity. }
    destruct (passo_ja_renomeado e nm c Hc Hd Hn)
      as (a1 & r & Hp & Ha1 & Hs & Hnn & Ho).
    destruct (IH (passo e [nm])) as (a2 & rs & E2 & Ha2 & Hrs & Hor).
    { intros y Hy; apply Hsub; right; exact Hy. }
    { exact Hl'. }
    { rewrite Hp; cbn [acrescenta temp]; intros q; rewrite Ha1; apply He. }
    exists a2, (r :: rs); cbn [map fst].
    change (laco e ([nm] :: map fst l)) with (laco (passo e [nm]) (map fst l)).
    rewrite E2, Hp, acrescenta_acrescenta.
    split; [reflexivity|]. split; [exact Ha2|]. split.
    + constructor; [split; congruence | exact Hrs].
    + cbn [map]; rewrite Ho, Hor; reflexivity.
Qed.

Lemma empacotar_arquivos (a : area) (l : area) :
  NoDup (map fst a) ->
  (forall x, In x l -> In x a) ->
  Forall (fun x => exists nm c,
            x = ([nm], Arquivo c)
            /\ existsb surrogate_qualquer nm = false) l ->
  empacotar a (map fst l) = inr (map (fun x => (name (fst x), snd x)) l).
Proof.
  intros Hnd; induction l as [|x l IH]; intros Hsub Hl; [reflexivity|].
  inversion Hl as [|? ? (nm & c & -> & Hs) Hl']; subst.
  cbn [map fst snd empacotar].
  rewrite (ler_In_NoDup a [nm] (Arquivo c) Hnd) by (apply Hsub; left; auto).
  change (name [nm]) with nm; rewrite Hs.
  rewrite IH; [reflexivity | intros y Hy; apply Hsub; right; exact Hy | exact Hl'].
Qed.

(** Run on a directory that is already as the tool leaves it, with every
    file under the name of its own content, a name without NUL or
    surrogate and of at most 255 bytes, [processar_zip] returns and packs
    exactly these files under these names; every record succeeds and
    repeats the file's name as its new name, and no error is shown. *)
Theorem processar_zip_idempotente (a : area) :
  ja_renomeada a -> a <> [] ->
  exists res,
    processar_zip a =
      (Retorna (Some (map (fun x => (name (fst x), snd x)) a)) res, [])
    /\ Forall (fun r => estado_final r = Sucesso /\ novo_nome r = original r)
         res
    /\ map original res = map name (map fst a).
Proof.
  intros [Hnd Ha] Hne.
  assert (Hg : rglob_pdf a = map fst a).
  { unfold rglob_pdf; f_equal; apply forallb_filter_id, forallb_forall.
    rewrite Forall_forall in Ha; intros x Hx.
    destruct (Ha x Hx) as (nm & c & -> & Hd & _).
    apply (destino_pdf c); exact Hd. }
  destruct (laco_ja_renomeada a a (inicial a) Hnd (fun x H => H))
    as (a' & rs & El & Ha' & Hrs & Hor); [exact Ha | reflexivity |].
  assert (Hm : exists p l, map fst a = p :: l)
    by (destruct a; [contradiction | simpl; eauto]).
  destruct Hm as (p & l & Em).
  unfold processar_zip; rewrite Hg, Em; cbv beta iota zeta.
  fold (inicial a); rewrite <- Em, El.
  cbn [acrescenta temp arquivos_renomeados resultados mensagens inicial app].
  rewrite (empacotar_ext a' a) by exact Ha'.
  rewrite empacotar_arquivos; auto.
  - exists rs; auto.
  - revert Ha; apply Forall_impl; intros x (nm & c & -> & _ & Hn).
    exists nm, c; split; [reflexivity|].
    unfold nome_aceito in Hn; rewrite !andb_true_iff, !negb_true_iff in Hn.
    tauto.
Qed.

Lemma processar_zip_idempotente_witness :
  exists res,
    processar_zip area_renomeada =
      (Retorna (Some (map (fun x => (name (fst x), snd x)) area_renomeada))
         res, [])
    /\ Forall (fun r => estado_final r = Sucesso /\ novo_nome r = original r)
         res
    /\ map original res = map name (map fst area_renomeada).
Proof.
  apply processar_zip_idempotente.
  - split.
    + repeat constructor; simpl; intuition discriminate.
    + repeat constructor; do 2 eexists;
        (split; [reflexivity | split; vm_compute; reflexivity]).
  - discriminate.
Defined.

(** ** extrair_info_comprovante: what the patterns capture *)

Lemma re_search_comeca_depois (l : str) (r : regex) (pre s g : str) :
  comeca_depois l pre s = true ->
  run (Seq (Lit l) r) s [] achou = Some g ->
  re_search (Seq (Lit l) r) (pre ++ s) = Some g.
Proof.
  intros Hpre Hs; induction pre as [|c pre IH].
  - unfold achou in Hs; destruct s; cbn [app re_search]; rewrite Hs; reflexivity.
  - cbn [comeca_depois] in Hpre; apply andb_true_iff in Hpre.
    destruct Hpre as [Hc Hpre]; apply negb_true_iff in Hc.
    change ((c :: pre) ++ s) with (c :: pre ++ s) in *.
    cbn [re_search run]; rewrite Hc; apply IH; exact Hpre.
Qed.

Lemma star_brancos {R : Type} (ws t : str) (k : str -> option R) (x : R) :
  Forall (fun c => isspace c = true) ws ->
  match t with [] => True | d :: _ => isspace d = false end ->
  k t = Some x ->
  star isspace (ws ++ t) k = Some x.
Proof.
  intros Hws Ht Hk; induction Hws as [|c ws Hc _ IH].
  - destruct t as [|d t]; simpl; [exact Hk|].
    rewrite Ht; exact Hk.
  - simpl; rewrite Hc, IH; reflexivity.
Qed.

Lemma lazy_star_para {R : Type} (p : char -> bool) (a b : str)
  (k : str -> option R) (x : R) :
  Forall (fun c => p c = true) a ->
  falha_dentro k a b ->
  k b = Some x ->
  lazy_star p (a ++ b) k = Some x.
Proof.
  intros Ha; induction Ha as [|c a Hc _ IH]; intros Hf Hk.
  - destruct b; simpl; rewrite Hk; reflexivity.
  - destruct Hf as [Hf1 Hf2].
    change ((c :: a) ++ b) with (c :: a ++ b) in *.
    cbn [lazy_star]; rewrite Hf1, Hc; apply IH; assumption.
Qed.

Lemma firstn_prefixo (a b : str) :
  firstn (List.length (a ++ b) - List.length b) (a ++ b) = a.
Proof.
  rewrite length_app.
  replace (List.length a + List.length b - List.length b)%nat
    with (List.length a + 0)%nat by lia.
  rewrite firstn_app_2; simpl; apply app_nil_r.
Qed.

Lemma falha_dentro_captura {R : Type} (F : str -> str -> option R)
  (G : str -> str) (n fim : str) :
  (forall g, falha_dentro (fun s' => F s' g) n fim) ->
  falha_dentro (fun s' => F s' (G s')) n fim.
Proof.
  induction n as [|y n IH]; intros H; [exact I|]; split.
  - exact (proj1 (H (G ((y :: n) ++ fim)))).
  - apply IH; intros g; exact (proj2 (H g)).
Qed.

(** A lazy group: it takes its first character, then stops at the first
    place where the rest of the pattern, [T], matches. *)
Lemma run_grupo_lazy (p : char -> bool) (T : regex) (c : char)
  (n fim g0 : str) :
  p c = true ->
  Forall (fun x => p x = true) n ->
  (forall g, falha_dentro (fun s' => run T s' g achou) n fim) ->
  (forall g, run T fim g achou = Some g) ->
  run (Seq (Group (LazyPlus p)) T) (c :: n ++ fim) g0 achou = Some (c :: n).
Proof.
  intros Hc Hn Hf Hfim; cbn [run lazy_plus]; rewrite Hc.
  apply lazy_star_para; [exact Hn | |].
  - apply (falha_dentro_captura
             (fun s' g => run T s' g achou)
             (fun s' => firstn (List.length (c :: n ++ fim) - List.length s')
                          (c :: n ++ fim))); exact Hf.
  - rewrite Hfim; f_equal; apply (firstn_prefixo (c :: n) fim).
Qed.

Lemma run_lit (l : str) (r : regex) (s g : str) (k : str -> str -> option str) :
  run (Seq (Lit l) r) (l ++ s) g k = run r s g k.
Proof.
  cbn [run].
  assert (E : startswith (l ++ s) l = true) by (apply startswith_iff; eauto).
  rewrite E; apply startswith_skipn in E.
  apply app_inv_head in E; rewrite <- E; reflexivity.
Qed.

Lemma isdecimal_nao_branco (c : char) : isdecimal c = true -> isspace c = false.
Proof.
  intros H; apply isdecimal_bloco in H; destruct H as (b & Hb & Hc).
  assert (Hall : forallb
                   (fun b =>
                      forallb (fun i => (snd b <? fst i) || (snd i <? fst b))
                        [(9, 13); (28, 32); (133, 133); (160, 160);
                         (5760, 5760); (8192, 8202); (8232, 8233);
                         (8239, 8239); (8287, 8287); (12288, 12288)])
                   decimal_blocks = true) by (vm_compute; reflexivity).
  rewrite forallb_forall in Hall; specialize (Hall b Hb).
  cbn [forallb fst snd] in Hall.
  rewrite !andb_true_iff, !orb_true_iff, !N.ltb_lt in Hall.
  apply not_true_is_false; unfold isspace.
  rewrite !orb_true_iff, !andb_true_iff, !N.leb_le, !N.eqb_eq; lia.
Qed.

Lemma run_re_dmy (d1 d2 m1 m2 y1 y2 y3 y4 : char) (rest g0 : str) :
  forallb isdecimal [d1; d2; m1; m2; y1; y2; y3; y4] = true ->
  run (Group re_dmy) (dmy_barras d1 d2 m1 m2 y1 y2 y3 y4 ++ rest) g0 achou =
    Some (dmy_barras d1 d2 m1 m2 y1 y2 y3 y4).
Proof.
  cbn [forallb]; rewrite !andb_true_iff.
  intros (H1 & H2 & H3 & H4 & H5 & H6 & H7 & H8 & _).
  unfold re_dmy, dmy_barras; cbn [run rep app].
  change (py "/") with [SLASH]; cbn [startswith skipn List.length].
  rewrite H1, H2, H3, H4, H5, H6, H7, H8, !N.eqb_refl; cbn [andb].
  unfold achou; f_equal.
  apply (firstn_prefixo [d1; d2; SLASH; m1; m2; SLASH; y1; y2; y3; y4] rest).
Qed.

Lemma replace_dmy (d1 d2 m1 m2 y1 y2 y3 y4 : char) :
  forallb isdecimal [d1; d2; m1; m2; y1; y2; y3; y4] = true ->
  replace SLASH HYPHEN (dmy_barras d1 d2 m1 m2 y1 y2 y3 y4) =
    dmy_hifens d1 d2 m1 m2 y1 y2 y3 y4.
Proof.
  cbn [forallb]; rewrite !andb_true_iff.
  intros (H1 & H2 & H3 & H4 & H5 & H6 & H7 & H8 & _).
  unfold dmy_barras, dmy_hifens; cbn [replace map].
  rewrite (isdecimal_nao_barra d1), (isdecimal_nao_barra d2),
    (isdecimal_nao_barra m1), (isdecimal_nao_barra m2),
    (isdecimal_nao_barra y1), (isdecimal_nao_barra y2),
    (isdecimal_nao_barra y3), (isdecimal_nao_barra y4) by assumption.
  reflexivity.
Qed.

(** The date pattern on a text whose first occurrence of the label is
    followed by blanks and DD/MM/YYYY. *)
Lemma extrair_data_rotulo (rotulo pre ws rest : str)
  (d1 d2 m1 m2 y1 y2 y3 y4 : char) :
  comeca_depois rotulo pre
    (rotulo ++ ws ++ dmy_barras d1 d2 m1 m2 y1 y2 y3 y4 ++ rest) = true ->
  forallb isspace ws = true ->
  forallb isdecimal [d1; d2; m1; m2; y1; y2; y3; y4] = true ->
  extrair_data (Seq (Lit rotulo) (Seq (Star isspace) (Group re_dmy)))
    (pre ++ rotulo ++ ws ++ dmy_barras d1 d2 m1 m2 y1 y2 y3 y4 ++ rest) =
  Some (dmy_hifens d1 d2 m1 m2 y1 y2 y3 y4).
Proof.
  intros Hpre Hws Hd; unfold extrair_data.
  rewrite (re_search_comeca_depois rotulo _ pre _
             (dmy_barras d1 d2 m1 m2 y1 y2 y3 y4) Hpre).
  - cbn [option_map]; rewrite replace_dmy by exact Hd; reflexivity.
  - rewrite run_lit; cbn [run].
    apply star_brancos.
    + apply Forall_forall; rewrite forallb_forall in Hws; exact Hws.
    + cbn [dmy_barras app]; apply isdecimal_nao_branco.
      cbn [forallb] in Hd; apply andb_true_iff in Hd; tauto.
    + apply run_re_dmy; exact Hd.
Qed.

(** When the label of the receipt's date occurs for the first time
    followed by optional blanks and DD/MM/YYYY in decimal digits, the date
    returned is DD-MM-YYYY with those digits, whatever follows (a time of
    day, for one): for "Data de débito:" always, for "Data/Hora:" on
    receipts classified TED or PIX. *)
Theorem data_extraida (texto rotulo pre ws rest : str)
  (d1 d2 m1 m2 y1 y2 y3 y4 : char) :
  texto = pre ++ rotulo ++ ws ++ dmy_barras d1 d2 m1 m2 y1 y2 y3 y4 ++ rest ->
  comeca_depois rotulo pre
    (rotulo ++ ws ++ dmy_barras d1 d2 m1 m2 y1 y2 y3 y4 ++ rest) = true ->
  forallb isspace ws = true ->
  forallb isdecimal [d1; d2; m1; m2; y1; y2; y3; y4] = true ->
  rotulo = py "Data de débito:"
  \/ rotulo = py "Data/Hora:"
     /\ (tipo_de (extrair_info_texto texto) = Some TED
         \/ tipo_de (extrair_info_texto texto) = Some PIX) ->
  data_de (extrair_info_texto texto) =
    Some (dmy_hifens d1 d2 m1 m2 y1 y2 y3 y4).
Proof.
  intros Et Hpre Hws Hd Hr.
  pose proof (extrair_data_rotulo rotulo pre ws rest
                d1 d2 m1 m2 y1 y2 y3 y4 Hpre Hws Hd) as E.
  rewrite <- Et in E; destruct Hr as [-> | [-> Ht]].
  - rewrite extrair_info_texto_boleto; [exact E|].
    apply orb_true_iff; right; apply contains_iff.
    exists pre; eexists; exact Et.
  - revert Ht; unfold extrair_info_texto.
    repeat match goal with
           | |- context [if ?b then _ else _] => destruct b
           end; cbn [data_de tipo_de fst snd];
      intros [Ht | Ht]; try discriminate Ht; exact E.
Qed.

Lemma data_extraida_witness :
  data_de (extrair_info_texto texto_pix) =
    Some (dmy_hifens 49 57 49 50 50 48 50 53).
Proof.
  apply (data_extraida texto_pix (py "Data/Hora:")
           (py "Comprovante de pagamento PIX" ++ [NL]) [32]
           (py " 14:32" ++ [NL] ++ py "Valor: R$ 150,00" ++ [NL] ++
            py "Informações do Destinatário" ++ [NL] ++
            py "Instituição: BANCO EXEMPLO S.A." ++ [NL] ++
            py "Nome: Francivaldo de Sousa Figueira" ++ [NL] ++
            py "CPF: ***.123.456-**" ++ [NL])).
  - vm_compute; reflexivity.
  - vm_compute; reflexivity.
  - vm_compute; reflexivity.
  - vm_compute; reflexivity.
  - right; split; [reflexivity|]. right; vm_compute; reflexivity.
Defined.

Lemma falha_dentro_linha (n fim g : str) :
  forallb dot n = true ->
  falha_dentro (fun s' => run (Alt (Lit [NL]) Eos) s' g achou) n fim.
Proof.
  induction n as [|y n IH]; intros H; [exact I|].
  cbn [forallb] in H; apply andb_true_iff in H; destruct H as [Hy Hn].
  split; [|apply IH; exact Hn].
  unfold dot in Hy; apply negb_true_iff in Hy.
  assert (Hy' : (NL =? y) = false) by (rewrite N.eqb_sym; exact Hy).
  cbn [run app startswith]; rewrite Hy'; cbn [andb].
  destruct (n ++ fim); [rewrite Hy|]; reflexivity.
Qed.

Lemma falha_dentro_dois (l1 l2 n fim g : str) :
  comeca_depois l1 n fim = true ->
  comeca_depois l2 n fim = true ->
  falha_dentro (fun s' => run (Alt (Lit l1) (Lit l2)) s' g achou) n fim.
Proof.
  induction n as [|y n IH]; intros H1 H2; [exact I|].
  cbn [comeca_depois] in H1, H2.
  apply andb_true_iff in H1; destruct H1 as [H1 H1'].
  apply andb_true_iff in H2; destruct H2 as [H2 H2'].
  apply negb_true_iff in H1; apply negb_true_iff in H2.
  split; [|apply IH; assumption].
  cbn [run]; rewrite H1, H2; reflexivity.
Qed.

(** The single-line name patterns on a text whose first occurrence of
    the label is followed by blanks and a line of text. *)
Lemma extrair_nome_rotulo (rotulo pre ws fim : str) (c : char) (n : str) :
  comeca_depois rotulo pre (rotulo ++ ws ++ (c :: n) ++ fim) = true ->
  forallb isspace ws = true ->
  isspace c = false ->
  forallb dot n = true ->
  fim = [] \/ startswith fim [NL] = true ->
  extrair_nome
    (Seq (Lit rotulo)
       (Seq (Star isspace)
          (Seq (Group (LazyPlus dot)) (Alt (Lit [NL]) Eos))))
    (pre ++ rotulo ++ ws ++ (c :: n) ++ fim) =
  Some (strip (c :: n)).
Proof.
  intros Hpre Hws Hc Hn Hfim; unfold extrair_nome.
  rewrite (re_search_comeca_depois rotulo _ pre _ (c :: n) Hpre);
    [reflexivity|].
  rewrite run_lit; cbn [run star]; fold (@run str).
  change (star isspace (ws ++ (c :: n) ++ fim)
            (fun s' => run (Seq (Group (LazyPlus dot)) (Alt (Lit [NL]) Eos))
                         s' [] achou) = Some (c :: n)).
  apply star_brancos.
  - apply Forall_forall; rewrite forallb_forall in Hws; exact Hws.
  - exact Hc.
  - apply (run_grupo_lazy dot (Alt (Lit [NL]) Eos) c n fim []).
    + unfold dot; apply negb_true_iff, N.eqb_neq; intros ->; discriminate.
    + apply Forall_forall; rewrite forallb_forall in Hn; exact Hn.
    + intros g; apply falha_dentro_linha; exact Hn.
    + intros g; destruct Hfim as [-> | Hf]; [reflexivity|].
      cbn [run]; rewrite Hf; reflexivity.
Qed.

(** When the payee label of a Boleto ("Nome do beneficiário:") or of a TED
    ("Favorecido:") occurs for the first time followed by optional blanks
    and then text up to the end of the line or of the page, the payee
    returned is that text, stripped of trailing blanks. *)
Theorem nome_extraido_linha (texto rotulo pre ws fim : str) (c : char)
  (n : str) :
  texto = pre ++ rotulo ++ ws ++ (c :: n) ++ fim ->
  comeca_depois rotulo pre (rotulo ++ ws ++ (c :: n) ++ fim) = true ->
  forallb isspace ws = true ->
  isspace c = false ->
  forallb dot n = true ->
  fim = [] \/ startswith fim [NL] = true ->
  rotulo = py "Nome do beneficiário:"
    /\ tipo_de (extrair_info_texto texto) = Some Boleto
  \/ rotulo = py "Favorecido:"
     /\ tipo_de (extrair_info_texto texto) = Some TED ->
  destinatario_de (extrair_info_texto texto) = Some (strip (c :: n))
  /\ strip (c :: n) = rstrip (c :: n).
Proof.
  intros Et Hpre Hws Hc Hn Hfim Hr.
  pose proof (extrair_nome_rotulo rotulo pre ws fim c n Hpre Hws Hc Hn Hfim)
    as E.
  rewrite <- Et in E; split.
  - destruct Hr as [[-> Ht] | [-> Ht]]; revert Ht; unfold extrair_info_texto;
      repeat match goal with
             | |- context [if ?b then _ else _] => destruct b
             end; cbn [destinatario_de tipo_de fst snd];
      intros Ht; try discriminate Ht; exact E.
  - unfold strip; cbn [lstrip]; rewrite Hc; reflexivity.
Qed.

Lemma nome_extraido_linha_witness :
  destinatario_de (extrair_info_texto texto_boleto) =
    Some (py "A S DA CONCEICAO COMERCIO & SERVICOS LTDA").
Proof.
  destruct (nome_extraido_linha texto_boleto (py "Nome do beneficiário:")
              (py "Comprovante de pagamento de Boleto" ++ [NL] ++
               py "Data de débito: 22/12/2025" ++ [NL])
              [32]
              ([NL] ++ py "Valor: R$ 10,00" ++ [NL])
              65 (py " S DA CONCEICAO COMERCIO & SERVICOS LTDA  "))
    as [E _].
  - vm_compute; reflexivity.
  - vm_compute; reflexivity.
  - vm_compute; reflexivity.
  - vm_compute; reflexivity.
  - vm_compute; reflexivity.
  - right; vm_compute; reflexivity.
  - left; split; vm_compute; reflexivity.
  - rewrite E; vm_compute; reflexivity.
Defined.

(** The PIX payee pattern, from the heading on. *)
Lemma run_re_destinatario (gap ws fim : str) (c : char) (n : str) :
  comeca_depois (py "Nome:") gap (py "Nome:" ++ ws ++ (c :: n) ++ fim) = true ->
  forallb isspace ws = true ->
  isspace c = false ->
  comeca_depois [NL] n fim = true ->
  comeca_depois (py "CPF") n fim = true ->
  startswith fim [NL] || startswith fim (py "CPF") = true ->
  run re_destinatario
    (py "Informações do Destinatário" ++ gap ++ py "Nome:" ++ ws
     ++ (c :: n) ++ fim) [] achou = Some (c :: n).
Proof.
  intros Hgap Hws Hc Hn1 Hn2 Hfim; unfold re_destinatario.
  rewrite run_lit.
  change (lazy_star dotall (gap ++ py "Nome:" ++ ws ++ (c :: n) ++ fim)
            (fun s' =>
               run (Seq (Lit (py "Nome:"))
                      (Seq (Star isspace)
                         (Seq (Group (LazyPlus dotall))
                            (Alt (Lit [NL]) (Lit (py "CPF"))))))
                 s' [] achou) = Some (c :: n)).
  apply lazy_star_para.
  - apply Forall_forall; reflexivity.
  - clear - Hgap; revert Hgap.
    generalize (py "Nome:" ++ ws ++ (c :: n) ++ fim) as S.
    intros S; induction gap as [|y gap IH]; intros H; [exact I|].
    cbn [comeca_depois] in H; apply andb_true_iff in H.
    destruct H as [H1 H2]; apply negb_true_iff in H1.
    split; [cbn [run]; rewrite H1; reflexivity | apply IH; exact H2].
  - rewrite run_lit.
    change (star isspace (ws ++ (c :: n) ++ fim)
              (fun s' =>
                 run (Seq (Group (LazyPlus dotall))
                        (Alt (Lit [NL]) (Lit (py "CPF")))) s' [] achou)
            = Some (c :: n)).
    apply star_brancos.
    + apply Forall_forall; rewrite forallb_forall in Hws; exact Hws.
    + exact Hc.
    + apply (run_grupo_lazy dotall _ c n fim []).
      * reflexivity.
      * apply Forall_forall; reflexivity.
      * intros g; apply falha_dentro_dois; assumption.
      * intros g; cbn [run].
        destruct (startswith fim [NL]); [reflexivity|].
        cbn [orb] in Hfim; rewrite Hfim; reflexivity.
Qed.

(** On a receipt classified PIX: when the heading "Informações do
    Destinatário" occurs for the first time, followed (on the same line
    or lines later) by a first "Nome:", optional blanks and then text in
    which no line break and no "CPF" begins before the line break or the
    "CPF" that ends it, the payee returned is that text, stripped of
    trailing blanks. *)
Theorem nome_extraido_pix (texto pre gap ws fim : str) (c : char) (n : str) :
  texto = pre ++ py "Informações do Destinatário" ++ gap ++ py "Nome:"
          ++ ws ++ (c :: n) ++ fim ->
  tipo_de (extrair_info_texto texto) = Some PIX ->
  comeca_depois (py "Informações do Destinatário") pre
    (py "Informações do Destinatário" ++ gap ++ py "Nome:" ++ ws
     ++ (c :: n) ++ fim) = true ->
  comeca_depois (py "Nome:") gap (py "Nome:" ++ ws ++ (c :: n) ++ fim) = true ->
  forallb isspace ws = true ->
  isspace c = false ->
  comeca_depois [NL] n fim = true ->
  comeca_depois (py "CPF") n fim = true ->
  startswith fim [NL] || startswith fim (py "CPF") = true ->
  destinatario_de (extrair_info_texto texto) = Some (strip (c :: n))
  /\ strip (c :: n) = rstrip (c :: n).
Proof.
  intros Et Ht Hpre Hgap Hws Hc Hn1 Hn2 Hfim.
  assert (E : extrair_nome re_destinatario texto = Some (strip (c :: n))).
  { unfold extrair_nome, re_destinatario; rewrite Et.
    rewrite (re_search_comeca_depois _ _ pre _ (c :: n) Hpre);
      [reflexivity|].
    apply (run_re_destinatario gap ws fim c n); assumption. }
  split.
  - revert Ht; unfold extrair_info_texto;
      repeat match goal with
             | |- context [if ?b then _ else _] => destruct b
             end; cbn [destinatario_de tipo_de fst snd];
      intros Ht; try discriminate Ht; exact E.
  - unfold strip; cbn [lstrip]; rewrite Hc; reflexivity.
Qed.

Lemma nome_extraido_pix_witness :
  destinatario_de (extrair_info_texto texto_pix) =
    Some (py "Francivaldo de Sousa Figueira").
Proof.
  destruct (nome_extraido_pix texto_pix
              (py "Comprovante de pagamento PIX" ++ [NL] ++
               py "Data/Hora: 19/12/2025 14:32" ++ [NL] ++
               py "Valor: R$ 150,00" ++ [NL])
              ([NL] ++ py "Instituição: BANCO EXEMPLO S.A." ++ [NL])
              [32]
              ([NL] ++ py "CPF: ***.123.456-**" ++ [NL])
              70 (py "rancivaldo de Sousa Figueira"))
    as [E _].
  - vm_compute; reflexivity.
  - vm_compute; reflexivity.
  - vm_compute; reflexivity.
  - vm_compute; reflexivity.
  - vm_compute; reflexivity.
  - vm_compute; reflexivity.
  - vm_compute; reflexivity.
  - vm_compute; reflexivity.
  - vm_compute; reflexivity.
  - rewrite E; vm_compute; reflexivity.
Defined.

(** ** extrair_info_comprovante: the payee is one trimmed line *)

Lemma lstrip_sufixo (s : str) : exists a, s = a ++ lstrip s.
Proof.
  induction s as [|c s (a & IH)]; [exists []; reflexivity|].
  simpl; destruct (isspace c).
  - exists (c :: a); simpl; rewrite <- IH; reflexivity.
  - exists []; reflexivity.
Qed.

Lemma lstrip_lstrip (s : str) : lstrip (lstrip s) = lstrip s.
Proof.
  induction s as [|c s IH]; [reflexivity|].
  simpl; destruct (isspace c) eqn:Hc; [exact IH|].
  simpl; rewrite Hc; reflexivity.
Qed.

Lemma strip_aparado (s : str) :
  lstrip (strip s) = strip s /\ rstrip (strip s) = strip s.
Proof.
  unfold strip; split.
  - set (t := lstrip s).
    assert (Ht : lstrip t = t) by apply lstrip_lstrip.
    unfold rstrip; destruct (lstrip_sufixo (rev t)) as (a & Ea).
    assert (E : t = rev (lstrip (rev t)) ++ rev a).
    { rewrite <- rev_app_distr, <- Ea, rev_involutive; reflexivity. }
    destruct (rev (lstrip (rev t))) as [|x u]; [reflexivity|].
    rewrite E in Ht; simpl in Ht |- *.
    destruct (isspace x); [|reflexivity].
    exfalso; apply (f_equal (@List.length _)) in Ht.
    pose proof (length_lstrip (u ++ rev a)); simpl in Ht; lia.
  - unfold rstrip; rewrite rev_involutive, lstrip_lstrip; reflexivity.
Qed.

Lemma In_strip (s : str) (x : char) : In x (strip s) -> In x (lstrip s).
Proof.
  unfold strip, rstrip; intros H.
  apply in_rev, In_lstrip in H; apply in_rev; exact H.
Qed.

Lemma lazy_star_inv {R : Type} (p : char -> bool) (s : str)
  (k : str -> option R) (x : R) :
  lazy_star p s k = Some x ->
  exists a b, s = a ++ b /\ k b = Some x /\ falha_dentro k a b.
Proof.
  induction s as [|c s IH]; cbn [lazy_star].
  - destruct (k []) eqn:E; [|discriminate].
    intros [= ->]; exists [], []; simpl; auto.
  - destruct (k (c :: s)) eqn:E.
    + intros [= ->]; exists [], (c :: s); simpl; auto.
    + destruct (p c); [|discriminate].
      intros H; destruct (IH H) as (a & b & -> & Hk & Hf).
      exists (c :: a), b; simpl; auto.
Qed.

Lemma falha_dentro_sem_quebra {R : Type} (k : str -> option R) (n fim : str) :
  (forall s', k (NL :: s') <> None) ->
  falha_dentro k n fim -> ~ In NL n.
Proof.
  intros Hk; induction n as [|y n IH]; intros Hf [].
  - subst y; destruct Hf as [Hf _]; exact (Hk _ Hf).
  - apply IH; [exact (proj2 Hf) | assumption].
Qed.

(** The text a lazy group captures in front of a line break or another
    end marker: after its first character it holds no line break. *)
Lemma run_grupo_lazy_inv (p : char -> bool) (X : regex) (s g0 g : str) :
  (forall s' g1 x, run X s' g1 achou = Some x -> x = g1) ->
  run (Seq (Group (LazyPlus p)) (Alt (Lit [NL]) X)) s g0 achou = Some g ->
  exists c n, g = c :: n /\ ~ In NL n.
Proof.
  intros HX; cbn [run]; unfold lazy_plus.
  destruct s as [|c s]; [intros H; discriminate H|].
  destruct (p c); [|intros H; discriminate H].
  intros H; apply lazy_star_inv in H; destruct H as (a & b & -> & Hk & Hf).
  exists c, a; split.
  - assert (E : firstn (List.length (c :: a ++ b) - List.length b)
                  (c :: a ++ b) = c :: a)
      by apply (firstn_prefixo (c :: a) b).
    rewrite E in Hk; revert Hk.
    destruct (startswith b [NL]); [intros [= <-]; reflexivity|].
    intros Hk; eapply HX; exact Hk.
  - eapply falha_dentro_sem_quebra; [|exact Hf].
    intros s'; cbn [startswith]; rewrite N.eqb_refl; discriminate.
Qed.

Lemma run_Eos_achou (s' g1 x : str) : run Eos s' g1 achou = Some x -> x = g1.
Proof.
  cbn [run]; destruct s' as [|c [|d s']]; try discriminate.
  - intros [= <-]; reflexivity.
  - destruct (c =? NL); [intros [= <-]; reflexivity | discriminate].
Qed.

Lemma run_Lit_achou (l s' g1 x : str) :
  run (Lit l) s' g1 achou = Some x -> x = g1.
Proof.
  cbn [run]; destruct (startswith s' l); [|discriminate].
  intros [= <-]; reflexivity.
Qed.

Lemma run_seq_lit_inv (l : str) (r : regex) (s g x : str) :
  run (Seq (Lit l) r) s g achou = Some x ->
  exists s', run r s' g achou = Some x.
Proof.
  cbn [run]; destruct (startswith s l); [eauto | discriminate].
Qed.

Lemma run_seq_star_inv (p : char -> bool) (r : regex) (s g x : str) :
  run (Seq (Star p) r) s g achou = Some x ->
  exists s', run r s' g achou = Some x.
Proof. cbn [run]; intros H; apply star_some in H; exact H. Qed.

Lemma run_seq_lazy_star_inv (p : char -> bool) (r : regex) (s g x : str) :
  run (Seq (LazyStar p) r) s g achou = Some x ->
  exists s', run r s' g achou = Some x.
Proof.
  cbn [run]; intros H; apply lazy_star_inv in H.
  destruct H as (a & b & _ & H & _); eauto.
Qed.

Lemma strip_sem_quebra (c : char) (n : str) :
  ~ In NL n -> ~ In NL (strip (c :: n)).
Proof.
  intros Hn H; apply In_strip in H; simpl in H.
  destruct (isspace c) eqn:Hc.
  - apply In_lstrip in H; contradiction.
  - destruct H as [-> | H]; [discriminate | contradiction].
Qed.

Lemma extrair_nome_linha_inv (l texto nome : str) :
  extrair_nome
    (Seq (Lit l)
       (Seq (Star isspace)
          (Seq (Group (LazyPlus dot)) (Alt (Lit [NL]) Eos)))) texto
    = Some nome ->
  ~ In NL nome.
Proof.
  unfold extrair_nome.
  destruct (re_search _ texto) as [g|] eqn:E; [|discriminate].
  intros [= <-]; apply re_search_some in E.
  destruct E as (a & b & _ & E).
  apply run_seq_lit_inv in E; destruct E as (s1 & E).
  apply run_seq_star_inv in E; destruct E as (s2 & E).
  apply (run_grupo_lazy_inv dot Eos s2 [] g run_Eos_achou) in E.
  destruct E as (c & n & -> & Hn); apply strip_sem_quebra; exact Hn.
Qed.

Lemma extrair_nome_destinatario_inv (texto nome : str) :
  extrair_nome re_destinatario texto = Some nome -> ~ In NL nome.
Proof.
  unfold extrair_nome, re_destinatario.
  destruct (re_search _ texto) as [g|] eqn:E; [|discriminate].
  intros [= <-]; apply re_search_some in E.
  destruct E as (a & b & _ & E).
  apply run_seq_lit_inv in E; destruct E as (s1 & E).
  apply run_seq_lazy_star_inv in E; destruct E as (s2 & E).
  apply run_seq_lit_inv in E; destruct E as (s3 & E).
  apply run_seq_star_inv in E; destruct E as (s4 & E).
  apply (run_grupo_lazy_inv dotall (Lit (py "CPF")) s4 [] g
           (run_Lit_achou (py "CPF"))) in E.
  destruct E as (c & n & -> & Hn); apply strip_sem_quebra; exact Hn.
Qed.

(** A payee returned for a page text is one line without blanks at
    either end: it holds no line break, and stripping it changes
    nothing. *)
Theorem destinatario_aparado (texto nome : str) :
  destinatario_de (extrair_info_texto texto) = Some nome ->
  ~ In NL nome /\ strip nome = nome.
Proof.
  unfold extrair_info_texto.
  repeat match goal with
         | |- context [if ?b then _ else _] => destruct b
         end; cbn [destinatario_de fst snd]; try discriminate;
    intros H; (split;
      [ first [ eapply extrair_nome_linha_inv; exact H
              | eapply extrair_nome_destinatario_inv; exact H ]
      | unfold extrair_nome in H;
        destruct (re_search _ texto) as [g|]; [|discriminate];
        injection H as <-;
        destruct (strip_aparado g) as [H1 H2];
        unfold strip at 1; rewrite H1; exact H2 ]).
Qed.

Lemma destinatario_aparado_witness :
  ~ In NL (py "Francivaldo de Sousa Figueira")
  /\ strip (py "Francivaldo de Sousa Figueira") =
       py "Francivaldo de Sousa Figueira".
Proof.
  apply (destinatario_aparado texto_pix).
  vm_compute; reflexivity.
Defined.

(** ** processar_zip: which content a shared name ends up with *)

Lemma passo_alvo (e : estado) (p : caminho) (nm : str) (c : pdf) :
  ler (temp e) [nm] = Some (Arquivo c) ->
  destino c = Some nm ->
  exists r,
    resultados (passo e p) = resultados e ++ [r]
    /\ (ler (temp (passo e p)) [nm] = Some (Arquivo c)
        \/ sucesso r = true /\ novo_nome r = nm).
Proof.
  intros Hc Hd; pose proof (passo_casos e p) as H.
  destruct (extrair_info_comprovante (temp e) p) as [i ms].
  destruct H as [(c' & nm' & a' & Hc' & Hd' & Hr & ->)
                | [(c' & nm' & ex & _ & _ & _ & ->) | [_ ->]]];
    eexists; (split; [reflexivity|]); cbn [acrescenta temp]; auto.
  destruct (list_eq_dec N.eq_dec nm' nm) as [-> | Hne]; [right; auto|].
  left; destruct (rename_ok _ _ _ _ Hr) as (c0 & _ & _ & _ & Hout).
  rewrite Hout by congruence.
  destruct (caminho_eqb p [nm]) eqn:E; [|exact Hc].
  apply caminho_eqb_eq in E; subst p; congruence.
Qed.

Lemma laco_alvo (l : list caminho) (e : estado) (nm : str) (c : pdf) :
  ler (temp e) [nm] = Some (Arquivo c) ->
  destino c = Some nm ->
  exists rs,
    resultados (laco e l) = resultados e ++ rs
    /\ (ler (temp (laco e l)) [nm] = Some (Arquivo c)
        \/ exists r, In r rs /\ sucesso r = true /\ novo_nome r = nm).
Proof.
  revert e; induction l as [|p l IH]; intros e Hc Hd.
  - exists []; simpl; rewrite app_nil_r; auto.
  - change (laco e (p :: l)) with (laco (passo e p) l).
    destruct (passo_alvo e p nm c Hc Hd) as (r & Er & [Hk | [Hs Hn]]).
    + destruct (IH (passo e p) Hk Hd) as (rs & Els & H).
      exists (r :: rs); rewrite Els, Er, <- app_assoc; split; [reflexivity|].
      destruct H as [H | (r' & Hin & H)]; [auto|].
      right; exists r'; split; [right; exact Hin | exact H].
    + destruct (laco_frame l (passo e p) (passo e p) eq_refl)
        as (a2 & n2 & rs & ms2 & E2 & _ & _).
      exists (r :: rs); rewrite E2; cbn [acrescenta resultados].
      rewrite Er, <- app_assoc; split; [reflexivity|].
      right; exists r; split; [left; reflexivity | auto].
Qed.

(** Take the PDF processed after the files [l1] of a batch, and let its
    renaming to the name [nm] succeed.  Whenever [processar_zip] returns,
    the file's record succeeds with that name and the archive holds an
    entry of that name; and unless a later file of the batch is also
    renamed to [nm], every entry of that name holds this file's content:
    of the files that share a name, the one processed last provides the
    content. *)
Theorem ultimo_renomeado_vence (temp_path : area) (l1 l2 : list caminho)
  (p : caminho) (c : pdf) (nm : str) (a' : area) (zip_output : option zip)
  (res : list registro) (ms : list mensagem) :
  rglob_pdf temp_path = l1 ++ p :: l2 ->
  ler (temp (laco (inicial temp_path) l1)) p = Some (Arquivo c) ->
  destino c = Some nm ->
  rename (temp (laco (inicial temp_path) l1)) p [nm] = inr a' ->
  processar_zip temp_path = (Retorna zip_output res, ms) ->
  exists z antes r depois,
    zip_output = Some z
    /\ res = antes ++ r :: depois
    /\ List.length antes = List.length l1
    /\ original r = name p
    /\ estado_final r = Sucesso
    /\ novo_nome r = nm
    /\ (exists n, In (nm, n) z)
    /\ ((forall r', In r' depois -> sucesso r' = true -> novo_nome r' <> nm) ->
        forall n, In (nm, n) z -> n = Arquivo c).
Proof.
  intros El Hc Hd Hr Hret.
  set (e1 := laco (inicial temp_path) l1) in *.
  pose proof (passo_casos e1 p) as H.
  pose proof (extrair_info_comprovante_ler (temp e1) p) as Hl.
  destruct (extrair_info_comprovante (temp e1) p) as [i ms0].
  cbn [fst] in Hl; rewrite Hc in Hl; subst i.
  destruct H as [(c' & nm' & a1 & Hc' & Hd' & Hr' & Hp)
                | [(c' & nm' & ex & Hc' & Hd' & Hr' & _) | [Ht _]]].
  2: { assert (c' = c) by congruence; subst c'.
       assert (nm' = nm) by congruence; subst nm'; congruence. }
  2: { apply destino_info in Hd; destruct Hd as [Hd _]; congruence. }
  assert (c' = c) by congruence; subst c'.
  assert (nm' = nm) by congruence; subst nm'.
  assert (a1 = a') by congruence; subst a1.
  destruct (processar_zip_registro _ _ _ _ _ _ _ _ _ _ _ El Hp Hret)
    as (z & depois & -> & Eres & La & _ & _ & Hn & Hz).
  exists z, (resultados e1); eexists; exists depois.
  split; [reflexivity|]. split; [exact Eres|]. split; [exact La|].
  split; [reflexivity|]. split; [reflexivity|]. split; [reflexivity|].
  split.
  - rewrite Eres, filter_app, map_app in Hn.
    cbn [filter sucesso estado_final map novo_nome] in Hn.
    assert (Hin : In nm (map fst z))
      by (rewrite Hn; apply in_or_app; right; left; reflexivity).
    apply in_map_iff in Hin; destruct Hin as ([nm0 n] & E & Hin).
    cbn [fst] in E; subst nm0; eauto.
  - intros Hdepois n Hin.
    assert (Hk : ler (temp (passo e1 p)) [nm] = Some (Arquivo c)).
    { rewrite Hp; cbn [acrescenta temp].
      destruct (rename_ok _ _ _ _ Hr) as (c0 & Hc0 & _ & Hdst & _).
      congruence. }
    destruct (laco_alvo l2 (passo e1 p) nm c Hk Hd) as (rs & Ers & Hou).
    destruct (processar_zip_retorna_inv _ _ _ _ Hret)
      as [(E0 & _) | (_ & Eres' & _)];
      [rewrite El in E0; destruct l1; discriminate E0|].
    rewrite El in Eres'.
    change (l1 ++ p :: l2) with (l1 ++ [p] ++ l2) in Eres', Hz.
    rewrite !laco_app in Eres', Hz; fold e1 in Eres', Hz.
    change (laco (laco e1 [p]) l2) with (laco (passo e1 p) l2) in Eres', Hz.
    rewrite Forall_forall in Hz; destruct (Hz _ Hin) as (cz & En & Hlz & _).
    cbn [fst snd] in *; subst n.
    destruct Hou as [Hfin | (r' & Hin' & Hs & Hn')].
    + congruence.
    + exfalso; apply (Hdepois r'); auto.
      rewrite Ers, Hp in Eres'; cbn [acrescenta resultados] in Eres'.
      rewrite Eres, <- app_assoc in Eres'.
      apply app_inv_head in Eres'; injection Eres' as ->; exact Hin'.
Qed.

Lemma ultimo_renomeado_vence_witness :
  exists z r0 r,
    processar_zip area_colisao = (Retorna (Some z) [r0; r], [])
    /\ original r = py "b.pdf"
    /\ estado_final r = Sucesso
    /\ novo_nome r = py "19-12-2025 - Jane Doe.pdf"
    /\ (exists n, In (py "19-12-2025 - Jane Doe.pdf", n) z)
    /\ forall n, In (py "19-12-2025 - Jane Doe.pdf", n) z ->
                 n = Arquivo jane_2.
Proof.
  destruct (processar_zip area_colisao) as [[e | out res] ms] eqn:E;
    [vm_compute in E; discriminate E|].
  destruct (ultimo_renomeado_vence area_colisao [[py "a.pdf"]] []
              [py "b.pdf"] jane_2 (py "19-12-2025 - Jane Doe.pdf")
              [([py "19-12-2025 - Jane Doe.pdf"], Arquivo jane_2)]
              out res ms)
    as (z & antes & r & depois & -> & -> & La & Ho & Hs & Hn & Hex & Hall).
  - vm_compute; reflexivity.
  - vm_compute; reflexivity.
  - vm_compute; reflexivity.
  - vm_compute; reflexivity.
  - exact E.
  - destruct antes as [|r0 [|r1 antes]]; try discriminate La.
    assert (Ed : depois = [] /\ ms = []).
    { revert E; vm_compute; intros [= _ _ Hd Hm]; auto. }
    destruct Ed as [-> ->].
    exists z, r0, r; repeat split; auto.
Defined.
